(** * hocr/text.py: text reconstruction and page offsets of hOCR documents

    A shallow embedding of [src/hocr/text.py] and the properties its
    specification states about it.

    - Python [str] values are sequences of Unicode code points; [bytes] values
      are sequences of integers below 256.  Both are lists of [Z], so that
      [len] of a [str] (code points) and the length of its UTF-8 encoding
      (bytes) are different numbers, as they are in Python.
    - The hOCR parser ([hocr.parse]) and the expat XML parser are not part of
      this file: the functions taken from [hocr.parse] are parameters of the
      development, and a run of expat over a file is given by the calls it
      makes to the registered handlers.  A page on which [hocr.parse] raises
      is outside the model.
    - Exceptions are modelled with the [result] type.
    - A generator is modelled by the list of what it yields, in order; a
      consumer that stops early sees a prefix of that list. *)

From stdpp Require Import base option list sorting strings gmap.
From Stdlib Require Import ZArith Lia.

Local Open Scope Z_scope.

(** ** Exceptions *)

Inductive exn : Set :=
  | UnicodeEncodeError
  | UnicodeDecodeError
  | ExpatError.

Inductive result (A : Type) : Type :=
  | Ok (a : A)
  | Raise (e : exn).
Arguments Ok {A} a.
Arguments Raise {A} e.

Definition result_bind {A B : Type} (m : result A) (k : A -> result B) : result B :=
  match m with
  | Ok a => k a
  | Raise e => Raise e
  end.

Notation "'do' x <- m ; k" := (result_bind m (fun x => k))
  (at level 10, x pattern, m at level 100, k at level 200).

(** A [for] loop whose body may raise: the loop variable state is threaded
    from left to right and the first exception leaves the loop. *)
Fixpoint for_each {A S : Type} (body : S -> A -> result S) (s : S) (xs : list A)
  : result S :=
  match xs with
  | [] => Ok s
  | x :: xs' =>
      match body s x with
      | Ok s' => for_each body s' xs'
      | Raise e => Raise e
      end
  end.

(** ** Python strings and bytes *)

(** A [str] is a sequence of code points, a [bytes] a sequence of octets. *)
Abbreviation pystr := (list Z) (only parsing).
Abbreviation pybytes := (list Z) (only parsing).

(** The [str] of an ASCII literal of the source. *)
Definition lit (s : string) : pystr :=
  List.map (fun a => Z.of_N (Ascii.N_of_ascii a)) (String.list_ascii_of_string s).

(** The [str] ['\n']. *)
Definition newline : pystr := [0x0A].

(** [len], on any list. *)
Definition len {A : Type} (l : list A) : Z := Z.of_nat (length l).

(** Code points a [str] can be encoded from: everything up to U+10FFFF except
    the surrogates U+D800..U+DFFF. *)
Definition is_surrogate (c : Z) : bool := (0xD800 <=? c) && (c <=? 0xDFFF).

Definition scalar_value (c : Z) : Prop :=
  0 <= c <= 0x10FFFF /\ is_surrogate c = false.

(** [str.encode('utf-8')], one code point. A surrogate raises
    [UnicodeEncodeError]; an integer that is not a code point cannot occur in
    a [str] and is refused. *)
Definition utf8_encode_char (c : Z) : result pybytes :=
  if c <? 0 then Raise UnicodeEncodeError
  else if c <? 0x80 then Ok [c]
  else if c <? 0x800 then Ok [0xC0 + c / 64; 0x80 + c mod 64]
  else if c <? 0x10000 then
    if is_surrogate c then Raise UnicodeEncodeError
    else Ok [0xE0 + c / 4096; 0x80 + (c / 64) mod 64; 0x80 + c mod 64]
  else if c <=? 0x10FFFF then
    Ok [0xF0 + c / 262144; 0x80 + (c / 4096) mod 64;
        0x80 + (c / 64) mod 64; 0x80 + c mod 64]
  else Raise UnicodeEncodeError.

Fixpoint str_encode_utf8 (s : pystr) : result pybytes :=
  match s with
  | [] => Ok []
  | c :: s' =>
      match utf8_encode_char c with
      | Ok bs =>
          match str_encode_utf8 s' with
          | Ok bs' => Ok (bs ++ bs')
          | Raise e => Raise e
          end
      | Raise e => Raise e
      end
  end.

(** A continuation byte, 10xxxxxx. *)
Definition is_cont (b : Z) : bool := (0x80 <=? b) && (b <? 0xC0).

Definition decoded (c : Z) (rest : result pystr) : result pystr :=
  match rest with
  | Ok s => Ok (c :: s)
  | Raise e => Raise e
  end.

(** [bytes.decode('utf-8')], strict: overlong forms, surrogates, values above
    U+10FFFF and truncated sequences raise [UnicodeDecodeError]. *)
Fixpoint bytes_decode_utf8 (bs : pybytes) : result pystr :=
  match bs with
  | [] => Ok []
  | b0 :: r0 =>
      if (0 <=? b0) && (b0 <? 0x80) then decoded b0 (bytes_decode_utf8 r0)
      else if (0xC2 <=? b0) && (b0 <? 0xE0) then
        match r0 with
        | b1 :: r1 =>
            if is_cont b1
            then decoded ((b0 - 0xC0) * 64 + (b1 - 0x80)) (bytes_decode_utf8 r1)
            else Raise UnicodeDecodeError
        | _ => Raise UnicodeDecodeError
        end
      else if (0xE0 <=? b0) && (b0 <? 0xF0) then
        match r0 with
        | b1 :: b2 :: r2 =>
            let c := (b0 - 0xE0) * 4096 + (b1 - 0x80) * 64 + (b2 - 0x80) in
            if is_cont b1 && is_cont b2 && (0x800 <=? c) && negb (is_surrogate c)
            then decoded c (bytes_decode_utf8 r2)
            else Raise UnicodeDecodeError
        | _ => Raise UnicodeDecodeError
        end
      else if (0xF0 <=? b0) && (b0 <? 0xF5) then
        match r0 with
        | b1 :: b2 :: b3 :: r3 =>
            let c := (b0 - 0xF0) * 262144 + (b1 - 0x80) * 4096
                     + (b2 - 0x80) * 64 + (b3 - 0x80) in
            if is_cont b1 && is_cont b2 && is_cont b3
               && (0x10000 <=? c) && (c <=? 0x10FFFF)
            then decoded c (bytes_decode_utf8 r3)
            else Raise UnicodeDecodeError
        | _ => Raise UnicodeDecodeError
        end
      else Raise UnicodeDecodeError
  end.

(** The code points [str.strip()] removes: those [str.isspace] accepts. *)
Definition isspace (c : Z) : bool :=
  ((0x09 <=? c) && (c <=? 0x0D)) || ((0x1C <=? c) && (c <=? 0x20))
  || (c =? 0x85) || (c =? 0xA0) || (c =? 0x1680)
  || ((0x2000 <=? c) && (c <=? 0x200A))
  || (c =? 0x2028) || (c =? 0x2029) || (c =? 0x202F) || (c =? 0x205F)
  || (c =? 0x3000).

Fixpoint lstrip (s : pystr) : pystr :=
  match s with
  | [] => []
  | c :: s' => if isspace c then lstrip s' else s
  end.

Definition rstrip (s : pystr) : pystr := rev (lstrip (rev s)).

(** [str.strip()] *)
Definition strip (s : pystr) : pystr := rstrip (lstrip s).

(** ** The word data of [hocr.parse]

    A page's word data is a list of paragraphs; a paragraph is a dict with a
    list of lines under ['lines'], a line a dict with a list of words under
    ['words'], a word a dict with its ['text'] and ['confidence'].  The other
    keys of these dicts are not read by [hocr/text.py]. *)

Record Word : Type := { text : pystr; confidence : Z }.
Record Line : Type := { words : list Word }.
Record Paragraph : Type := { lines : list Line }.

Definition MIN_WORD_CONF : Z := 75.

(** ** hocr_paragraph_text *)

(** The loop over the words of a line, shared verbatim by [hocr_page_text]
    and [hocr_paragraph_text]: the state is [(line_words, block_data)]. *)
Definition word_loop_body (st : pystr * bool) (word : Word) : pystr * bool :=
  let '(line_words, block_data) := st in
  if confidence word <? MIN_WORD_CONF then (line_words, block_data)
  else (line_words ++ (text word ++ lit " "), true).

Definition paragraph_text_line (st : pystr * bool) (line : Line) : pystr * bool :=
  let '(data, block_data) := st in
  let '(line_words, block_data) :=
    foldl word_loop_body ([], block_data) (words line) in
  (data ++ line_words, block_data).

Definition hocr_paragraph_text (paragraph : Paragraph) : pystr * bool :=
  foldl paragraph_text_line ([], false) (lines paragraph).

(** ** get_hocr_words *)

Definition get_hocr_words_word (acc : list Word) (word : Word) : list Word :=
  if confidence word <? MIN_WORD_CONF then acc else acc ++ [word].

Definition get_hocr_words (paragraph : Paragraph) : list Word :=
  foldl (fun acc line => foldl get_hocr_words_word acc (words line))
        [] (lines paragraph).

(** ** Python lists: truth value, slices, generators *)

(** The truth value of a sequence: it is not empty. *)
Definition truthy {A : Type} (l : list A) : bool :=
  match l with
  | [] => false
  | _ :: _ => true
  end.

(** [l[:-1]] and [l[1:]]; neither raises on a short list. *)
Definition slice_to_last {A : Type} (l : list A) : list A :=
  take (length l - 1)%nat l.

Definition slice_from_1 {A : Type} (l : list A) : list A := drop 1 l.

(** A [for] loop in a generator: the body returns the next state of the local
    variables and what it yields in this round. *)
Fixpoint gen_for {A S Y : Type} (body : S -> A -> S * list Y) (s : S) (xs : list A)
  : S * list Y :=
  match xs with
  | [] => (s, [])
  | x :: xs' =>
      let '(s1, ys) := body s x in
      let '(s2, ys') := gen_for body s1 xs' in
      (s2, ys ++ ys')
  end.

(** ** PageFinder and the expat parser *)

(** What the handlers can read of the parser. *)
Record xmlparser : Type := { CurrentByteIndex : Z }.

Record PageFinder : Type := { page_bytes : list Z }.

(** [PageFinder.__init__]: registers the two handlers and starts with no
    page bytes. *)
Definition PageFinder_init : PageFinder := {| page_bytes := [] |}.

(** [k in d] for a dict. *)
Definition dict_in (k : pystr) (d : gmap (list Z) (list Z)) : bool :=
  bool_decide (is_Some (d !! k)).

Definition start_element (self : PageFinder) (parser : xmlparser)
    (name : pystr) (attrs : gmap (list Z) (list Z)) : PageFinder :=
  if bool_decide (name = lit "div")
     && dict_in (lit "class") attrs
     && bool_decide (attrs !! lit "class" = Some (lit "ocr_page"))
  then {| page_bytes := page_bytes self ++ [CurrentByteIndex parser] |}
  else self.

Definition end_element (self : PageFinder) (parser : xmlparser)
    (name : pystr) : PageFinder :=
  if bool_decide (name = lit "body")
  then {| page_bytes := page_bytes self ++ [CurrentByteIndex parser] |}
  else self.

(** The calls expat makes while it parses: only [StartElementHandler] and
    [EndElementHandler] are registered. *)
Inductive handler_call : Type :=
  | StartElement (name : pystr) (attrs : gmap (list Z) (list Z))
  | EndElement (name : pystr).

(** A run of [ParseFile] over a file read from byte 0: the handler calls in
    document order, each with the parser as the handler sees it, and whether
    the parse ends with [ExpatError] (after the calls made so far). *)
Record expat_run : Type := {
  handler_calls : list (xmlparser * handler_call);
  not_well_formed : bool
}.

Definition dispatch (h : PageFinder) (c : xmlparser * handler_call) : PageFinder :=
  match c with
  | (parser, StartElement name attrs) => start_element h parser name attrs
  | (parser, EndElement name) => end_element h parser name
  end.

Definition ParseFile (h : PageFinder) (xml_file : expat_run) : result PageFinder :=
  let h' := foldl dispatch h (handler_calls xml_file) in
  if not_well_formed xml_file then Raise ExpatError else Ok h'.

(** ** hocr_get_xml_page_offsets *)

(** [open_if_required] and [seek(0)] make the parser read the file from its
    first byte; [xml_file] stands for the run of expat over it. *)
Definition hocr_get_xml_page_offsets (xml_file : expat_run) : result (list (Z * Z)) :=
  do h <- ParseFile PageFinder_init xml_file;
  let page_boundaries :=
    zip (slice_to_last (page_bytes h)) (slice_from_1 (page_bytes h)) in
  Ok page_boundaries.

Section Hocr.

(** The functions of [hocr.parse]: a page element, its word data (two
    implementations) and its dimensions.  [hocr_page_iterator] yields the
    pages of a document in order; a document is given by that list. *)
Variable Page : Type.
Variable hocr_page_to_word_data : Page -> list Paragraph.
Variable hocr_page_to_word_data_fast : Page -> list Paragraph.
Variable hocr_page_get_dimensions : Page -> Z * Z.

(** ** hocr_page_text *)

Definition page_text_line (st : pystr * bool) (line : Line) : result (pystr * bool) :=
  let '(text, block_data) := st in
  let '(line_words, block_data) :=
    foldl word_loop_body ([], block_data) (words line) in
  do line_words <- str_encode_utf8 (strip line_words);
  if truthy line_words
  then do decoded_words <- bytes_decode_utf8 line_words;
       Ok (text ++ (lit " " ++ decoded_words), block_data)
  else Ok (text, block_data).

Definition page_text_paragraph (text : pystr) (paragraph : Paragraph) : result pystr :=
  do (text, block_data) <- for_each page_text_line (text, false) (lines paragraph);
  if block_data then Ok (text ++ newline) else Ok text.

Definition hocr_page_text (page : Page) : result pystr :=
  let word_data := hocr_page_to_word_data page in
  for_each page_text_paragraph [] word_data.

(** ** hocr_paragraphs *)

(** What the generator yields:
    [(paragraph, ptext, page_no, page_width, page_height)]. *)
Definition Yielded : Type := Paragraph * pystr * Z * Z * Z.

(** The body of the loop over the paragraphs of a page; its state is the
    pair of the generator's variables [text] and [ps]. *)
Definition paragraphs_body (page_no page_width page_height : Z)
    (st : pystr * list Paragraph) (paragraph : Paragraph)
  : (pystr * list Paragraph) * list Yielded :=
  let '(text, ps) := st in
  let '(ptext, ok) := hocr_paragraph_text paragraph in
  if negb ok then ((text ++ ptext, ps ++ [paragraph]), [])
  else
    let paragraph :=
      if negb (len ps =? 0) then
        let ps := ps ++ [paragraph] in
        {| lines := foldl (fun new_lines p => new_lines ++ lines p) [] ps |}
      else paragraph in
    (([], []), [(paragraph, ptext, page_no, page_width, page_height)]).

(** The body of the loop over the pages; its state is [(text, ps, page_no)]. *)
Definition pages_body (st : pystr * list Paragraph * Z) (hocr_page : Page)
  : (pystr * list Paragraph * Z) * list Yielded :=
  let '(text, ps, page_no) := st in
  let '(page_width, page_height) := hocr_page_get_dimensions hocr_page in
  let paragraphs := hocr_page_to_word_data_fast hocr_page in
  let '((text, ps), out) :=
    gen_for (paragraphs_body page_no page_width page_height) (text, ps) paragraphs in
  ((text, ps, page_no + 1), out).

(** The generator run to exhaustion: the final values of [text], [ps] and
    [page_no], and everything yielded. *)
Definition hocr_paragraphs_run (hocr_iter : list Page)
  : (pystr * list Paragraph * Z) * list Yielded :=
  gen_for pages_body ([], [], 0) hocr_iter.

Definition hocr_paragraphs (hocr_iter : list Page) : list Yielded :=
  snd (hocr_paragraphs_run hocr_iter).

(** ** hocr_get_plaintext_page_offsets *)

Definition plaintext_body (st : list Z * Z) (page : Page) : result (list Z * Z) :=
  let '(page_bytes, cursor) := st in
  do page_text <- hocr_page_text page;
  let cursor := cursor + len page_text in
  Ok (page_bytes ++ [cursor], cursor).

Definition hocr_get_plaintext_page_offsets (page_it : list Page)
  : result (list (Z * Z)) :=
  do (page_bytes, cursor) <- for_each plaintext_body ([0], 0) page_it;
  Ok (zip (slice_to_last page_bytes) (slice_from_1 page_bytes)).

End Hocr.

(** ** Fixtures *)

Module Fixture.

(** A page element given by what the parser reads from it. *)
Record page : Type := {
  dimensions : Z * Z;
  word_data : list Paragraph
}.

Definition page_text := hocr_page_text page word_data.
Definition paragraphs := hocr_paragraphs page word_data dimensions.
Definition plaintext_page_offsets := hocr_get_plaintext_page_offsets page word_data.

Definition word (t : string) (c : Z) : Word := {| text := lit t; confidence := c |}.
Definition para (ws : list Word) : Paragraph := {| lines := [ {| words := ws |} ] |}.

(** The merge scenario: a paragraph with content, one without, one with. *)
Definition P1 : Paragraph := para [word "Hello" 95].
Definition P2 : Paragraph := para [word "~" 12].
Definition P3 : Paragraph := para [word "World" 95].
Definition three_page : page :=
  {| dimensions := (2480, 3508); word_data := [P1; P2; P3] |}.

(** A page whose text has a character outside ASCII: U+00E9. *)
Definition accent_page : page :=
  {| dimensions := (2480, 3508);
     word_data := [para [ {| text := [0xE9]; confidence := 100 |} ]] |}.

Definition blank_page : page := {| dimensions := (2480, 3508); word_data := [] |}.

Definition ab_page : page :=
  {| dimensions := (2480, 3508); word_data := [para [word "ab" 80]; para [word "c" 20]] |}.

(** Two pages and a page between them without content; the first ends with
    a paragraph without content, the last has its own dimensions. *)
Definition smudge : Paragraph := para [word "smudge" 12].
Definition first_page : page :=
  {| dimensions := (2480, 3508); word_data := [para [word "Intro" 90]; smudge] |}.
Definition blot_page : page :=
  {| dimensions := (2480, 3508); word_data := [para [word "blot" 40]] |}.
Definition chapter : Paragraph := para [word "Chapter" 88].
Definition last_page : page :=
  {| dimensions := (1240, 1754);
     word_data := [para [word "dust" 3]; chapter; para [word "more" 80]] |}.

(** Runs of expat: a document with two pages, and one without pages. *)
Definition at_byte (i : Z) (c : handler_call) : xmlparser * handler_call :=
  ({| CurrentByteIndex := i |}, c).

Definition class_attr (c : string) : gmap (list Z) (list Z) :=
  {[ lit "class" := lit c ]}.

Definition two_pages_pre : list (xmlparser * handler_call) :=
  [ at_byte 39 (StartElement (lit "html") ∅);
    at_byte 46 (StartElement (lit "body") ∅);
    at_byte 53 (StartElement (lit "div") (class_attr "ocr_page"));
    at_byte 80 (StartElement (lit "div") (class_attr "ocr_carea"));
    at_byte 140 (EndElement (lit "div"));
    at_byte 146 (EndElement (lit "div"));
    at_byte 153 (StartElement (lit "div") (class_attr "ocr_page"));
    at_byte 260 (EndElement (lit "div")) ].

Definition two_pages_body_end : xmlparser := {| CurrentByteIndex := 267 |}.

Definition two_pages_post : list (xmlparser * handler_call) :=
  [ at_byte 275 (EndElement (lit "html")) ].

Definition two_pages_run : expat_run :=
  {| handler_calls :=
       two_pages_pre ++ (two_pages_body_end, EndElement (lit "body")) :: two_pages_post;
     not_well_formed := false |}.

Definition no_pages_run : expat_run :=
  {| handler_calls :=
       [ at_byte 39 (StartElement (lit "html") ∅);
         at_byte 46 (StartElement (lit "body") ∅);
         at_byte 52 (EndElement (lit "body"));
         at_byte 59 (EndElement (lit "html")) ];
     not_well_formed := false |}.

(** The merge scenario split in two pages, and a run of expat that ends
    without the end of a [body] element. *)
Definition hello_page : page :=
  {| dimensions := (2480, 3508); word_data := [P1] |}.
Definition world_page : page :=
  {| dimensions := (2480, 3508); word_data := [P2; P3] |}.

Definition hello_world : Paragraph :=
  para [word "Hello" 95; word "~" 12; word "World" 75].


End Fixture.

(** ** Vocabulary of the statements *)

(** A word passes the filter: the test [word['confidence'] < MIN_WORD_CONF]
    of the three word loops is false. *)
Definition confident (w : Word) : bool := negb (confidence w <? MIN_WORD_CONF).

Definition kept (ws : list Word) : list Word := List.filter confident ws.

(** The words of a paragraph, line after line. *)
Definition all_words (p : Paragraph) : list Word := concat (map words (lines p)).

(** Each word's text followed by one space. *)
Definition spaced (ws : list Word) : pystr :=
  concat (map (fun w => text w ++ lit " ") ws).

(** What [hocr_page_text] writes for a line with the words [ws]: a space and
    the stripped words, or nothing when nothing is left after stripping. *)
Definition line_out (ws : list Word) : pystr :=
  let s := strip (spaced (kept ws)) in
  if truthy s then lit " " ++ s else [].

(** [hocr_page_text] on a page element whose word data is [word_data]. *)
Definition page_text_of (word_data : list Paragraph) : result pystr :=
  hocr_page_text (list Paragraph) (fun d => d) word_data.

(** A paragraph with the words below the threshold taken out. *)
Definition only_confident (p : Paragraph) : Paragraph :=
  {| lines := map (fun l => {| words := kept (words l) |}) (lines p) |}.

(** The components of a yielded tuple. *)
Definition yparagraph (y : Yielded) : Paragraph := y.1.1.1.1.
Definition ytext (y : Yielded) : pystr := y.1.1.1.2.
Definition ypage_no (y : Yielded) : Z := y.1.1.2.
Definition ywidth (y : Yielded) : Z := y.1.2.
Definition yheight (y : Yielded) : Z := y.2.

(** The flag [ok] that [hocr_paragraphs] reads from [hocr_paragraph_text]. *)
Definition has_content (p : Paragraph) : bool := (hocr_paragraph_text p).2.

(** The paragraph yielded for the paragraph [p] when [pending] is the list
    [ps] of the generator: [p] itself when nothing is pending, else a new
    paragraph with the lines of the pending paragraphs, in order, followed by
    the lines of [p]. *)
Definition merged (pending : list Paragraph) (p : Paragraph) : Paragraph :=
  if truthy pending
  then {| lines := concat (map lines pending) ++ lines p |}
  else p.

(** A group is a paragraph with content and the paragraphs without content
    that were pending when it was reached. *)
Definition group : Type := list Paragraph * Paragraph.

Definition group_paragraphs (g : group) : list Paragraph := g.1 ++ [g.2].

Definition group_ok (g : group) : Prop :=
  Forall (fun z => has_content z = false) g.1 /\ has_content g.2 = true.

(** The tuple [y] is what the generator yields for the group [g]. *)
Definition yielded_for (y : Yielded) (g : group) : Prop :=
  yparagraph y = merged g.1 g.2 /\ ytext y = (hocr_paragraph_text g.2).1.

(** The pairs of neighbours of a list, [zip(l[:-1], l[1:])]. *)
Fixpoint consecutive (l : list Z) : list (Z * Z) :=
  match l with
  | x :: (y :: _) as l' => (x, y) :: consecutive l'
  | _ => []
  end.

(** The handler call is the start of a [div] element of class [ocr_page]. *)
Definition is_page_start (c : handler_call) : bool :=
  match c with
  | StartElement name attrs =>
      bool_decide (name = lit "div" /\ attrs !! lit "class" = Some (lit "ocr_page"))
  | EndElement _ => false
  end.

(** The handler call is the end of the [body] element. *)
Definition is_body_end (c : handler_call) : bool :=
  match c with
  | StartElement _ _ => false
  | EndElement name => bool_decide (name = lit "body")
  end.

(** The byte index of a page start, of a page boundary. *)
Definition page_start (c : xmlparser * handler_call) : option Z :=
  if is_page_start c.2 then Some (CurrentByteIndex c.1) else None.

Definition boundary (c : xmlparser * handler_call) : option Z :=
  if is_page_start c.2 || is_body_end c.2 then Some (CurrentByteIndex c.1) else None.

(** The values the variable [cursor] of [hocr_get_plaintext_page_offsets]
    takes, page after page, when the texts of the pages are [texts]. *)
Fixpoint running (cursor : Z) (texts : list pystr) : list Z :=
  match texts with
  | [] => []
  | t :: texts' => (cursor + len t) :: running (cursor + len t) texts'
  end.

(** What [hocr_page_text] writes for a paragraph: its lines, and a newline
    when a word of the paragraph passes the filter; and for a page. *)
Definition paragraph_out (p : Paragraph) : pystr :=
  concat (map (fun l => line_out (words l)) (lines p))
  ++ (if truthy (kept (all_words p)) then newline else []).

Definition page_out (ps : list Paragraph) : pystr := concat (map paragraph_out ps).

(** The words of a page that pass the filter. *)
Definition page_kept (ps : list Paragraph) : list Word :=
  kept (concat (map all_words ps)).

(** Every word of the page that passes the filter has a text that UTF-8 can
    encode. *)
Definition encodable (ps : list Paragraph) : Prop :=
  Forall (fun w => Forall scalar_value (text w)) (page_kept ps).

#[export] Instance scalar_value_dec (c : Z) : Decision (scalar_value c).
Proof. unfold scalar_value. apply _. Defined.

#[export] Instance encodable_dec (ps : list Paragraph) : Decision (encodable ps).
Proof. unfold encodable. apply _. Defined.

(** * Properties *)

(** ** UTF-8: decoding undoes encoding *)

Ltac cmp_cases :=
  repeat match goal with
  | |- context [?a <=? ?b] => destruct (Z.leb_spec a b); try lia
  | |- context [?a <? ?b] => destruct (Z.ltb_spec a b); try lia
  | H : context [?a <=? ?b] |- _ => destruct (Z.leb_spec a b); try lia
  | H : context [?a <? ?b] |- _ => destruct (Z.ltb_spec a b); try lia
  end.

Lemma decode_1 b r :
  0 <= b < 0x80 ->
  bytes_decode_utf8 (b :: r) = decoded b (bytes_decode_utf8 r).
Proof. intros Hb. cbn [bytes_decode_utf8]. cmp_cases. reflexivity. Qed.

Lemma decode_2 b0 b1 r :
  0xC2 <= b0 < 0xE0 -> 0x80 <= b1 < 0xC0 ->
  bytes_decode_utf8 (b0 :: b1 :: r)
  = decoded ((b0 - 0xC0) * 64 + (b1 - 0x80)) (bytes_decode_utf8 r).
Proof.
  intros H0 H1. cbn [bytes_decode_utf8]. unfold is_cont. cmp_cases. reflexivity.
Qed.

Lemma decode_3 b0 b1 b2 r :
  0xE0 <= b0 < 0xF0 -> 0x80 <= b1 < 0xC0 -> 0x80 <= b2 < 0xC0 ->
  0x800 <= (b0 - 0xE0) * 4096 + (b1 - 0x80) * 64 + (b2 - 0x80) ->
  is_surrogate ((b0 - 0xE0) * 4096 + (b1 - 0x80) * 64 + (b2 - 0x80)) = false ->
  bytes_decode_utf8 (b0 :: b1 :: b2 :: r)
  = decoded ((b0 - 0xE0) * 4096 + (b1 - 0x80) * 64 + (b2 - 0x80))
            (bytes_decode_utf8 r).
Proof.
  intros H0 H1 H2 Hc Hs. cbn [bytes_decode_utf8]. cbv zeta. rewrite Hs.
  unfold is_cont. cmp_cases. reflexivity.
Qed.

Lemma decode_4 b0 b1 b2 b3 r :
  0xF0 <= b0 < 0xF5 -> 0x80 <= b1 < 0xC0 -> 0x80 <= b2 < 0xC0 ->
  0x80 <= b3 < 0xC0 ->
  0x10000 <= (b0 - 0xF0) * 262144 + (b1 - 0x80) * 4096
             + (b2 - 0x80) * 64 + (b3 - 0x80) <= 0x10FFFF ->
  bytes_decode_utf8 (b0 :: b1 :: b2 :: b3 :: r)
  = decoded ((b0 - 0xF0) * 262144 + (b1 - 0x80) * 4096
             + (b2 - 0x80) * 64 + (b3 - 0x80)) (bytes_decode_utf8 r).
Proof.
  intros H0 H1 H2 H3 Hc. cbn [bytes_decode_utf8]. cbv zeta.
  unfold is_cont. cmp_cases. reflexivity.
Qed.

Lemma utf8_char_roundtrip c bs r :
  utf8_encode_char c = Ok bs ->
  bytes_decode_utf8 (bs ++ r) = decoded c (bytes_decode_utf8 r).
Proof.
  unfold utf8_encode_char.
  destruct (Z.ltb_spec c 0); [discriminate|].
  destruct (Z.ltb_spec c 0x80).
  { intros [= <-]. apply decode_1. lia. }
  destruct (Z.ltb_spec c 0x800).
  { intros [= <-]. cbn [app].
    rewrite decode_2 by (Z.div_mod_to_equations; lia).
    f_equal. Z.div_mod_to_equations; lia. }
  destruct (Z.ltb_spec c 0x10000).
  { destruct (is_surrogate c) eqn:Hs; [discriminate|].
    intros [= <-]. cbn [app].
    assert (Hc : (0xE0 + c / 4096 - 0xE0) * 4096 + (0x80 + (c / 64) mod 64 - 0x80) * 64
                 + (0x80 + c mod 64 - 0x80) = c)
      by (Z.div_mod_to_equations; lia).
    rewrite decode_3; rewrite ?Hc; try assumption; try (Z.div_mod_to_equations; lia).
    reflexivity. }
  destruct (Z.leb_spec c 0x10FFFF); [|discriminate].
  intros [= <-]. cbn [app].
  assert (Hc : (0xF0 + c / 262144 - 0xF0) * 262144 + (0x80 + (c / 4096) mod 64 - 0x80) * 4096
               + (0x80 + (c / 64) mod 64 - 0x80) * 64 + (0x80 + c mod 64 - 0x80) = c)
    by (Z.div_mod_to_equations; lia).
  rewrite decode_4; rewrite ?Hc; try (Z.div_mod_to_equations; lia).
  reflexivity.
Qed.

Lemma utf8_roundtrip s : forall bs,
  str_encode_utf8 s = Ok bs -> bytes_decode_utf8 bs = Ok s.
Proof.
  induction s as [|c s IH]; intros bs; cbn [str_encode_utf8].
  - intros [= <-]. reflexivity.
  - destruct (utf8_encode_char c) as [b|] eqn:Hc; [|discriminate].
    destruct (str_encode_utf8 s) as [bs'|]; [|discriminate].
    intros [= <-]. rewrite (utf8_char_roundtrip _ _ _ Hc), (IH bs' eq_refl).
    reflexivity.
Qed.

Lemma utf8_encode_char_nonempty c bs : utf8_encode_char c = Ok bs -> bs <> [].
Proof.
  unfold utf8_encode_char.
  repeat match goal with
         | |- context [if ?b then _ else _] => destruct b
         end; intros [= <-]; discriminate.
Qed.

Lemma utf8_encode_truthy s bs :
  str_encode_utf8 s = Ok bs -> truthy bs = truthy s.
Proof.
  destruct s as [|c s]; cbn [str_encode_utf8].
  - intros [= <-]. reflexivity.
  - destruct (utf8_encode_char c) as [b|] eqn:Hc; [|discriminate].
    destruct (str_encode_utf8 s) as [bs'|]; [|discriminate].
    intros [= <-]. apply utf8_encode_char_nonempty in Hc.
    destruct b; [congruence|reflexivity].
Qed.

Lemma utf8_encode_char_scalar c :
  scalar_value c <-> exists bs, utf8_encode_char c = Ok bs.
Proof.
  unfold scalar_value, utf8_encode_char. split.
  - intros [Hr Hs]. rewrite Hs. cmp_cases; eauto.
  - intros [bs H]. destruct (is_surrogate c) eqn:Hs.
    + unfold is_surrogate in Hs. cmp_cases; try discriminate.
    + cmp_cases; try discriminate; try (split; [lia|reflexivity]).
Qed.

Lemma utf8_encode_scalar s :
  Forall scalar_value s <-> exists bs, str_encode_utf8 s = Ok bs.
Proof.
  induction s as [|c s IH]; cbn [str_encode_utf8].
  - split; eauto.
  - rewrite Forall_cons, IH, utf8_encode_char_scalar. split.
    + intros [[b ->] [bs ->]]. eauto.
    + destruct (utf8_encode_char c); [|intros [? [=]]].
      destruct (str_encode_utf8 s); [|intros [? [=]]]. eauto.
Qed.

(** ** The word loops *)

Lemma kept_app ws1 ws2 : kept (ws1 ++ ws2) = kept ws1 ++ kept ws2.
Proof. apply List.filter_app. Qed.

Lemma spaced_app ws1 ws2 : spaced (ws1 ++ ws2) = spaced ws1 ++ spaced ws2.
Proof. unfold spaced. rewrite map_app. apply concat_app. Qed.

Lemma truthy_app {A} (l1 l2 : list A) : truthy (l1 ++ l2) = truthy l1 || truthy l2.
Proof. destruct l1; reflexivity. Qed.

Lemma truthy_false {A} (l : list A) : truthy l = false <-> l = [].
Proof. destruct l; cbn; split; intros; congruence. Qed.

Lemma word_loop ws : forall line_words block_data,
  foldl word_loop_body (line_words, block_data) ws
  = (line_words ++ spaced (kept ws), block_data || truthy (kept ws)).
Proof.
  induction ws as [|w ws IH]; intros lw bd; cbn [foldl].
  - cbn. rewrite app_nil_r, orb_false_r. reflexivity.
  - unfold word_loop_body at 2. unfold kept, confident. cbn [List.filter].
    destruct (confidence w <? MIN_WORD_CONF); cbn [negb].
    + apply IH.
    + rewrite IH. unfold spaced, kept, confident. cbn [map concat truthy].
      rewrite <- !app_assoc, orb_true_r. reflexivity.
Qed.

Lemma paragraph_text_lines ls : forall data block_data,
  foldl paragraph_text_line (data, block_data) ls
  = (data ++ spaced (kept (concat (map words ls))),
     block_data || truthy (kept (concat (map words ls)))).
Proof.
  induction ls as [|l ls IH]; intros data bd; cbn [foldl map concat].
  - cbn. rewrite app_nil_r, orb_false_r. reflexivity.
  - unfold paragraph_text_line at 2. rewrite word_loop. cbn [app].
    rewrite IH, kept_app, spaced_app, truthy_app, <- app_assoc, orb_assoc.
    reflexivity.
Qed.

Lemma hocr_paragraph_text_eq p :
  hocr_paragraph_text p
  = (spaced (kept (all_words p)), truthy (kept (all_words p))).
Proof. unfold hocr_paragraph_text. apply paragraph_text_lines. Qed.

Lemma get_hocr_words_line ws : forall acc,
  foldl get_hocr_words_word acc ws = acc ++ kept ws.
Proof.
  induction ws as [|w ws IH]; intros acc; cbn [foldl].
  - cbn. rewrite app_nil_r. reflexivity.
  - rewrite IH. unfold get_hocr_words_word, kept, confident. cbn [List.filter].
    destruct (confidence w <? MIN_WORD_CONF); cbn [negb].
    + reflexivity.
    + rewrite <- app_assoc. reflexivity.
Qed.

Lemma get_hocr_words_eq p : get_hocr_words p = kept (all_words p).
Proof.
  unfold get_hocr_words, all_words.
  change (kept (concat (map words (lines p))))
    with ([] ++ kept (concat (map words (lines p)))).
  generalize (@nil Word).
  induction (lines p) as [|l ls IH]; intros acc; cbn [foldl map concat].
  - cbn. rewrite app_nil_r. reflexivity.
  - rewrite IH, get_hocr_words_line, kept_app, app_assoc. reflexivity.
Qed.

Lemma kept_confident ws : Forall (fun w => MIN_WORD_CONF <= confidence w) (kept ws).
Proof.
  apply List.Forall_forall. intros w Hw. apply List.filter_In in Hw as [_ Hw].
  unfold confident in Hw. destruct (Z.ltb_spec (confidence w) MIN_WORD_CONF);
    [discriminate|lia].
Qed.

Lemma spaced_nil_inv ws : spaced ws = [] -> ws = [].
Proof.
  destruct ws as [|w ws]; [reflexivity|]. unfold spaced. cbn [map concat].
  intros H. apply app_eq_nil in H as [H _]. apply app_eq_nil in H as [_ H].
  discriminate.
Qed.

(** ** hocr_page_text, line by line *)

Lemma page_text_line_eq text block_data line :
  page_text_line (text, block_data) line
  = match str_encode_utf8 (strip (spaced (kept (words line)))) with
    | Raise e => Raise e
    | Ok _ => Ok (text ++ line_out (words line),
                  block_data || truthy (kept (words line)))
    end.
Proof.
  unfold page_text_line, line_out. rewrite word_loop. cbn [app].
  destruct (str_encode_utf8 _) as [bs|e] eqn:He; cbn [result_bind]; [|reflexivity].
  rewrite (utf8_encode_truthy _ _ He).
  destruct (truthy (strip _)).
  - rewrite (utf8_roundtrip _ _ He). reflexivity.
  - rewrite app_nil_r. reflexivity.
Qed.

Lemma kept_idemp ws : kept (kept ws) = kept ws.
Proof.
  unfold kept. induction ws as [|w ws IH]; cbn [List.filter]; [reflexivity|].
  destruct (confident w) eqn:Hw; cbn [List.filter]; rewrite ?Hw, IH; reflexivity.
Qed.

Lemma for_each_ext {A S} (f g : S -> A -> result S) xs :
  (forall s x, f s x = g s x) -> forall s, for_each f s xs = for_each g s xs.
Proof.
  intros Hfg. induction xs as [|x xs IH]; intros s; cbn [for_each]; [reflexivity|].
  rewrite Hfg. destruct (g s x); [apply IH|reflexivity].
Qed.

Lemma for_each_map {A B S} (f : S -> B -> result S) (g : A -> B) xs : forall s,
  for_each f s (map g xs) = for_each (fun s x => f s (g x)) s xs.
Proof.
  induction xs as [|x xs IH]; intros s; cbn [for_each map]; [reflexivity|].
  destruct (f s (g x)); [apply IH|reflexivity].
Qed.

Lemma for_each_app {A S} (f : S -> A -> result S) xs ys s :
  for_each f s (xs ++ ys)
  = match for_each f s xs with
    | Ok s' => for_each f s' ys
    | Raise e => Raise e
    end.
Proof.
  revert s. induction xs as [|x xs IH]; intros s; cbn [for_each app]; [reflexivity|].
  destruct (f s x); [apply IH|reflexivity].
Qed.

Lemma page_text_line_kept st line :
  page_text_line st {| words := kept (words line) |} = page_text_line st line.
Proof.
  destruct st as [text bd]. rewrite !page_text_line_eq. unfold line_out.
  cbn [words]. rewrite kept_idemp. reflexivity.
Qed.

Lemma page_text_paragraph_kept text p :
  page_text_paragraph text (only_confident p) = page_text_paragraph text p.
Proof.
  unfold page_text_paragraph, only_confident. cbn [lines].
  rewrite for_each_map.
  rewrite (for_each_ext _ page_text_line); [reflexivity|].
  intros s l. apply page_text_line_kept.
Qed.

Lemma page_text_of_kept ps :
  page_text_of (map only_confident ps) = page_text_of ps.
Proof.
  unfold page_text_of, hocr_page_text. rewrite for_each_map.
  apply for_each_ext. intros s p. apply page_text_paragraph_kept.
Qed.

Lemma hocr_page_text_of {Page} (word_data : Page -> list Paragraph) page :
  hocr_page_text Page word_data page = page_text_of (word_data page).
Proof. reflexivity. Qed.

(** ** The confidence boundary *)

Lemma kept_cons_confident w ws : confident w = true -> kept (w :: ws) = w :: kept ws.
Proof. intros H. unfold kept. cbn [List.filter]. rewrite H. reflexivity. Qed.

Lemma kept_cons_low w ws : confident w = false -> kept (w :: ws) = kept ws.
Proof. intros H. unfold kept. cbn [List.filter]. rewrite H. reflexivity. Qed.

Lemma all_words_at ls1 ws ls2 :
  all_words {| lines := ls1 ++ {| words := ws |} :: ls2 |}
  = concat (map words ls1) ++ ws ++ concat (map words ls2).
Proof. unfold all_words. cbn [lines]. rewrite map_app, concat_app. reflexivity. Qed.

(** C3. The three word loops keep a word whose confidence is exactly 75 and
    skip a word whose confidence is 74, whatever its text and wherever it
    stands.  With confidence 75 the word is in the result of [get_hocr_words]
    at its place, its text and a space are in the text of
    [hocr_paragraph_text] at their place, and [hocr_page_text] builds the
    line from it and marks the paragraph as having data.  With confidence 74
    all three functions return what they return when the word is not there. *)
Theorem confidence_boundary (t : pystr) (ls1 ls2 : list Line)
    (pre post : list Word) (ps1 ps2 : list Paragraph)
    (page_text : pystr) (block_data : bool) :
  let w75 := {| text := t; confidence := 75 |} in
  let w74 := {| text := t; confidence := 74 |} in
  let line_with w := {| words := pre ++ w :: post |} in
  let para_with w := {| lines := ls1 ++ line_with w :: ls2 |} in
  let para_without := {| lines := ls1 ++ {| words := pre ++ post |} :: ls2 |} in
  let before := concat (map words ls1) ++ pre in
  let after := post ++ concat (map words ls2) in
  (get_hocr_words (para_with w75) = kept before ++ w75 :: kept after
   /\ hocr_paragraph_text (para_with w75)
      = (spaced (kept before) ++ (t ++ lit " ") ++ spaced (kept after), true)
   /\ page_text_line (page_text, block_data) (line_with w75)
      = let s := strip (spaced (kept pre) ++ (t ++ lit " ") ++ spaced (kept post)) in
        match str_encode_utf8 s with
        | Raise e => Raise e
        | Ok _ => Ok (page_text ++ (if truthy s then lit " " ++ s else []), true)
        end)
  /\ (get_hocr_words (para_with w74) = get_hocr_words para_without
      /\ hocr_paragraph_text (para_with w74) = hocr_paragraph_text para_without
      /\ page_text_of (ps1 ++ para_with w74 :: ps2)
         = page_text_of (ps1 ++ para_without :: ps2)).
Proof.
  intros w75 w74 line_with para_with para_without before after.
  assert (H75 : confident w75 = true) by reflexivity.
  assert (H74 : confident w74 = false) by reflexivity.
  assert (Hk75 : forall l r, kept (l ++ w75 :: r) = kept l ++ w75 :: kept r).
  { intros l r. rewrite kept_app, kept_cons_confident by exact H75. reflexivity. }
  assert (Hk74 : forall l r, kept (l ++ w74 :: r) = kept (l ++ r)).
  { intros l r. rewrite !kept_app, kept_cons_low by exact H74. reflexivity. }
  assert (Hall : forall w, all_words (para_with w) = before ++ w :: after).
  { intros w. unfold para_with, line_with, before, after.
    rewrite all_words_at, <- !app_assoc. reflexivity. }
  assert (Hall0 : all_words para_without = before ++ after).
  { unfold para_without, before, after.
    rewrite all_words_at, <- !app_assoc. reflexivity. }
  split; [split; [|split]|split; [|split]].
  - rewrite get_hocr_words_eq, Hall. apply Hk75.
  - rewrite hocr_paragraph_text_eq, Hall, Hk75.
    rewrite spaced_app, truthy_app. cbn [truthy]. rewrite orb_true_r.
    reflexivity.
  - rewrite page_text_line_eq. unfold line_out, line_with. cbn [words].
    rewrite Hk75, spaced_app, truthy_app. cbn [truthy]. rewrite !orb_true_r.
    reflexivity.
  - rewrite !get_hocr_words_eq, Hall, Hall0. apply Hk74.
  - rewrite !hocr_paragraph_text_eq, Hall, Hall0, Hk74. reflexivity.
  - rewrite <- (page_text_of_kept (ps1 ++ para_with w74 :: ps2)).
    rewrite <- (page_text_of_kept (ps1 ++ para_without :: ps2)).
    rewrite !map_app. cbn [map]. do 3 f_equal.
    unfold only_confident, para_with, para_without, line_with. cbn [lines].
    rewrite !map_app. cbn [map words]. rewrite Hk74. reflexivity.
Qed.

(** ** The generator loops *)

Lemma gen_for_app {A S Y} (body : S -> A -> S * list Y) xs ys : forall s,
  gen_for body s (xs ++ ys)
  = let '(s1, o1) := gen_for body s xs in
    let '(s2, o2) := gen_for body s1 ys in
    (s2, o1 ++ o2).
Proof.
  induction xs as [|x xs IH]; intros s; cbn [gen_for app].
  - destruct (gen_for body s ys). reflexivity.
  - destruct (body s x) as [s1 o]. rewrite IH.
    destruct (gen_for body s1 xs) as [s2 o2].
    destruct (gen_for body s2 ys) as [s3 o3].
    rewrite app_assoc. reflexivity.
Qed.

Lemma extend_lines ps : forall acc,
  foldl (fun new_lines p => new_lines ++ lines p) acc ps
  = acc ++ concat (map lines ps).
Proof.
  induction ps as [|p ps IH]; intros acc; cbn [foldl map concat].
  - rewrite app_nil_r. reflexivity.
  - rewrite IH, app_assoc. reflexivity.
Qed.

Lemma has_content_eq p : has_content p = truthy (kept (all_words p)).
Proof. unfold has_content. rewrite hocr_paragraph_text_eq. reflexivity. Qed.

Lemma no_content_text p : has_content p = false -> (hocr_paragraph_text p).1 = [].
Proof.
  rewrite has_content_eq, hocr_paragraph_text_eq. intros H.
  apply truthy_false in H. cbn [fst]. rewrite H. reflexivity.
Qed.

Lemma len_truthy {A} (l : list A) : negb (len l =? 0) = truthy l.
Proof. destruct l; reflexivity. Qed.

(** One round of the loop over paragraphs. *)
Lemma paragraphs_body_eq page_no w h txt ps p :
  paragraphs_body page_no w h (txt, ps) p
  = if has_content p
    then (([], []), [(merged ps p, (hocr_paragraph_text p).1, page_no, w, h)])
    else ((txt, ps ++ [p]), []).
Proof.
  unfold paragraphs_body, merged.
  destruct (has_content p) eqn:Hc.
  - unfold has_content in Hc. destruct (hocr_paragraph_text p) as [ptext ok].
    cbn in Hc. subst ok. cbn [negb fst]. rewrite len_truthy.
    destruct (truthy ps); [|reflexivity].
    rewrite extend_lines, map_app, concat_app. cbn [map concat app].
    rewrite app_nil_r. reflexivity.
  - pose proof (no_content_text p Hc) as Ht. unfold has_content in Hc.
    destruct (hocr_paragraph_text p) as [ptext ok]. cbn in Hc, Ht. subst.
    cbn [negb]. rewrite app_nil_r. reflexivity.
Qed.

Lemma paragraphs_loop_no_content page_no w h zs : forall txt ps,
  Forall (fun z => has_content z = false) zs ->
  gen_for (paragraphs_body page_no w h) (txt, ps) zs = ((txt, ps ++ zs), []).
Proof.
  induction zs as [|z zs IH]; intros txt ps Hz; cbn [gen_for].
  - rewrite app_nil_r. reflexivity.
  - apply Forall_cons in Hz as [Hz Hzs].
    rewrite paragraphs_body_eq, Hz, (IH _ _ Hzs), <- app_assoc. reflexivity.
Qed.

Lemma paragraphs_loop_groups page_no w h items : forall ps,
  Forall (fun z => has_content z = false) ps ->
  exists (G : list group) (rest : list Paragraph),
    gen_for (paragraphs_body page_no w h) ([], ps) items
    = (([], rest),
       map (fun g : group =>
              (merged g.1 g.2, (hocr_paragraph_text g.2).1, page_no, w, h)) G)
    /\ ps ++ items = concat (map group_paragraphs G) ++ rest
    /\ Forall group_ok G
    /\ Forall (fun z => has_content z = false) rest.
Proof.
  induction items as [|p items IH]; intros ps Hps.
  - exists [], ps. cbn. rewrite app_nil_r. auto.
  - cbn [gen_for]. rewrite paragraphs_body_eq.
    destruct (has_content p) eqn:Hp.
    + destruct (IH [] (List.Forall_nil _)) as (G & rest & Hrun & Hpart & HG & Hrest).
      exists ((ps, p) :: G), rest. rewrite Hrun. cbn [map concat app].
      split; [reflexivity|]. split; [|split; [|assumption]].
      * unfold group_paragraphs at 1. cbn [fst snd]. cbn [app] in Hpart.
        rewrite <- !app_assoc, <- Hpart. reflexivity.
      * constructor; [split; assumption|assumption].
    + assert (Hps' : Forall (fun z => has_content z = false) (ps ++ [p])).
      { apply Forall_app. split; [assumption|]. constructor; [assumption|constructor]. }
      destruct (IH _ Hps') as (G & rest & Hrun & Hpart & HG & Hrest).
      exists G, rest. rewrite Hrun. cbn [app].
      split; [reflexivity|]. split; [|split; assumption].
      rewrite <- Hpart, <- app_assoc. reflexivity.
Qed.

Lemma merged_lines zs c :
  lines (merged zs c) = concat (map lines (group_paragraphs (zs, c))).
Proof.
  unfold merged, group_paragraphs. cbn [fst snd].
  rewrite map_app, concat_app. cbn [map concat]. rewrite app_nil_r.
  destruct zs; reflexivity.
Qed.

Lemma len_cons {A} (x : A) l : len (x :: l) = 1 + len l.
Proof. unfold len. cbn [length]. lia. Qed.

Section Reconstructor.

Context {Page : Type}.
Variable word_data : Page -> list Paragraph.
Variable word_data_fast : Page -> list Paragraph.
Variable dimensions : Page -> Z * Z.

Local Abbreviation pages_loop := (gen_for (pages_body Page word_data_fast dimensions)).
Local Abbreviation run := (hocr_paragraphs_run Page word_data_fast dimensions).
Local Abbreviation paragraphs := (hocr_paragraphs Page word_data_fast dimensions).

Lemma pages_body_eq txt ps page_no page :
  pages_body Page word_data_fast dimensions (txt, ps, page_no) page
  = let '((txt', ps'), out) :=
      gen_for (paragraphs_body page_no (dimensions page).1 (dimensions page).2)
              (txt, ps) (word_data_fast page) in
    ((txt', ps', page_no + 1), out).
Proof.
  unfold pages_body. destruct (dimensions page) as [w h]. reflexivity.
Qed.

Lemma pages_loop_groups doc : forall page_no ps,
  Forall (fun z => has_content z = false) ps ->
  exists (G : list group) (rest : list Paragraph) (out : list Yielded),
    pages_loop ([], ps, page_no) doc = (([], rest, page_no + len doc), out)
    /\ Forall2 yielded_for out G
    /\ ps ++ concat (map word_data_fast doc) = concat (map group_paragraphs G) ++ rest
    /\ Forall group_ok G
    /\ Forall (fun z => has_content z = false) rest.
Proof.
  induction doc as [|page doc IH]; intros page_no ps Hps.
  - exists [], ps, []. cbn [gen_for map concat app].
    rewrite app_nil_r. unfold len. cbn [length]. rewrite Z.add_0_r.
    split; [reflexivity|]. split; [constructor|]. split; [reflexivity|].
    split; [constructor|assumption].
  - cbn [gen_for]. rewrite pages_body_eq.
    destruct (paragraphs_loop_groups page_no (dimensions page).1 (dimensions page).2
                (word_data_fast page) ps Hps) as (G1 & r1 & Hrun1 & Hpart1 & HG1 & Hr1).
    rewrite Hrun1.
    destruct (IH (page_no + 1) r1 Hr1) as (G2 & r2 & out2 & Hrun2 & Hy2 & Hpart2 & HG2 & Hr2).
    rewrite Hrun2.
    exists (G1 ++ G2), r2. eexists. split; [|split; [|split; [|split]]].
    + rewrite len_cons, Z.add_assoc. reflexivity.
    + apply Forall2_app; [|exact Hy2].
      clear. induction G1 as [|g G1 IH]; cbn [map]; constructor; [|exact IH].
      split; reflexivity.
    + cbn [map concat]. rewrite map_app, concat_app, app_assoc, Hpart1.
      rewrite <- !app_assoc, Hpart2. reflexivity.
    + apply Forall_app. split; assumption.
    + assumption.
Qed.

Lemma yielded_paragraphs out G :
  Forall2 yielded_for out G ->
  map yparagraph out = map (fun g : group => merged g.1 g.2) G.
Proof.
  induction 1 as [|y g out G [Hy _] _ IH]; cbn [map]; [reflexivity|].
  rewrite Hy, IH. reflexivity.
Qed.

Lemma merged_groups_lines (G : list group) :
  concat (map lines (map (fun g : group => merged g.1 g.2) G))
  = concat (map lines (concat (map group_paragraphs G))).
Proof.
  induction G as [|[zs c] G IH]; cbn [map concat]; [reflexivity|].
  rewrite map_app, concat_app, IH. cbn [fst snd]. rewrite merged_lines.
  reflexivity.
Qed.

(** C8. The paragraphs of a document, page after page, split into groups - a
    paragraph with content preceded by the paragraphs without content that
    were pending when it was reached - and a rest without content that is
    still pending when the pages are exhausted.  [hocr_paragraphs] yields one
    paragraph per group, in order, and its lines are the lines of the
    pending paragraphs of the group, in order, followed by the lines of the
    paragraph with content.  So the lines of the yielded paragraphs followed
    by the lines of the rest are the lines of the document in their order:
    none is repeated and none is lost. *)
Theorem merged_lines_in_order (doc : list Page) :
  exists (G : list group) (rest : list Paragraph),
    concat (map word_data_fast doc) = concat (map group_paragraphs G) ++ rest
    /\ Forall group_ok G
    /\ Forall (fun z => has_content z = false) rest
    /\ (hocr_paragraphs_run Page word_data_fast dimensions doc).1.1.2 = rest
    /\ map yparagraph (hocr_paragraphs Page word_data_fast dimensions doc)
       = map (fun g : group => merged g.1 g.2) G
    /\ Forall (fun g : group =>
                lines (merged g.1 g.2) = concat (map lines g.1) ++ lines g.2) G
    /\ concat (map lines (map yparagraph
                             (hocr_paragraphs Page word_data_fast dimensions doc)))
         ++ concat (map lines rest)
       = concat (map lines (concat (map word_data_fast doc))).
Proof.
  destruct (pages_loop_groups doc 0 [] (List.Forall_nil _))
    as (G & rest & out & Hrun & Hy & Hpart & HG & Hrest).
  cbn [app] in Hpart. apply yielded_paragraphs in Hy.
  exists G, rest. unfold hocr_paragraphs, hocr_paragraphs_run. rewrite Hrun.
  cbn [fst snd]. repeat split; try assumption.
  - apply List.Forall_forall. intros [zs c] _. cbn [fst snd].
    rewrite merged_lines. unfold group_paragraphs. cbn [fst snd].
    rewrite map_app, concat_app. cbn [map concat]. rewrite app_nil_r.
    reflexivity.
  - rewrite Hy, Hpart, merged_groups_lines, map_app, concat_app. reflexivity.
Qed.

Lemma paragraphs_loop_text page_no w h items : forall ps,
  (gen_for (paragraphs_body page_no w h) ([], ps) items).1.1 = [].
Proof.
  induction items as [|p items IH]; intros ps; cbn [gen_for]; [reflexivity|].
  rewrite paragraphs_body_eq.
  destruct (has_content p).
  - specialize (IH []). destruct (gen_for _ _ items) as [[t q] o]. exact IH.
  - specialize (IH (ps ++ [p])). destruct (gen_for _ _ items) as [[t q] o].
    exact IH.
Qed.

Lemma pages_loop_text doc : forall ps page_no,
  (pages_loop ([], ps, page_no) doc).1.1.1 = [].
Proof.
  induction doc as [|page doc IH]; intros ps page_no; cbn [gen_for]; [reflexivity|].
  rewrite pages_body_eq.
  pose proof (paragraphs_loop_text page_no (dimensions page).1 (dimensions page).2
                (word_data_fast page) ps) as Ht.
  destruct (gen_for (paragraphs_body _ _ _) _ _) as [[t q] o]. cbn in Ht. subst t.
  specialize (IH q (page_no + 1)).
  destruct (gen_for _ _ doc) as [[[t' q'] n'] o']. exact IH.
Qed.

(** C9. The flag returned by [hocr_paragraph_text] is true exactly when the
    returned text is not empty, and false exactly when it is empty.  The
    variable [text] of [hocr_paragraphs], to which the text of the paragraphs
    kept pending is added, is therefore the empty string in every state the
    generator reaches: after any number of pages and any number of paragraphs
    of the next page. *)
Theorem flag_iff_text_nonempty :
  (forall p : Paragraph,
      ((hocr_paragraph_text p).2 = true <-> (hocr_paragraph_text p).1 <> [])
      /\ ((hocr_paragraph_text p).2 = false <-> (hocr_paragraph_text p).1 = []))
  /\ (forall (doc : list Page) (page_no w h : Z) (items : list Paragraph),
        (hocr_paragraphs_run Page word_data_fast dimensions doc).1.1.1 = []
        /\ (gen_for (paragraphs_body page_no w h)
                    ((hocr_paragraphs_run Page word_data_fast dimensions doc).1.1.1,
                     (hocr_paragraphs_run Page word_data_fast dimensions doc).1.1.2)
                    items).1.1 = []).
Proof.
  split.
  - intros p. rewrite hocr_paragraph_text_eq. cbn [fst snd].
    destruct (kept (all_words p)) as [|w ws] eqn:Hk.
    + cbn. split; split; congruence.
    + assert (Hne : spaced (w :: ws) <> []).
      { intros H. apply spaced_nil_inv in H. discriminate. }
      cbn [truthy]. split; split; intros H; try reflexivity; try discriminate;
        try assumption. contradiction.
  - intros doc page_no w h items.
    pose proof (pages_loop_text doc [] 0) as Ht.
    unfold hocr_paragraphs_run. split; [exact Ht|]. rewrite Ht.
    apply paragraphs_loop_text.
Qed.

Lemma kept_no_content zs :
  Forall (fun z => has_content z = false) zs ->
  kept (concat (map words (concat (map lines zs)))) = [].
Proof.
  induction 1 as [|z zs Hz _ IH]; cbn [map concat]; [reflexivity|].
  rewrite map_app, concat_app, kept_app, IH, app_nil_r.
  rewrite has_content_eq in Hz. apply truthy_false in Hz. exact Hz.
Qed.

Lemma kept_merged zs c :
  Forall (fun z => has_content z = false) zs ->
  kept (all_words (merged zs c)) = kept (all_words c).
Proof.
  intros Hzs. unfold merged. destruct (truthy zs); [|reflexivity].
  unfold all_words. cbn [lines].
  rewrite map_app, concat_app, kept_app, (kept_no_content zs Hzs). reflexivity.
Qed.

Lemma only_confident_words ps :
  Forall (fun w => MIN_WORD_CONF <= confidence w)
         (concat (map all_words (map only_confident ps))).
Proof.
  induction ps as [|p ps IH]; cbn [map concat]; [constructor|].
  apply Forall_app. split; [|exact IH].
  unfold all_words, only_confident. cbn [lines].
  induction (lines p) as [|l ls IHl]; cbn [map concat]; [constructor|].
  apply Forall_app. split; [apply kept_confident|exact IHl].
Qed.

(** C4. No output is built from a word whose confidence is below 75.
    [get_hocr_words] returns the words of the paragraph whose confidence is
    not below [MIN_WORD_CONF], in their order, so every word it returns has
    confidence at least 75.  The text of [hocr_paragraph_text] is made of the
    texts of exactly those words, each followed by a space, and its flag says
    whether there is such a word.  [hocr_page_text] returns what it returns
    on the word data from which every word below 75 is taken out.  The text
    of every tuple yielded by [hocr_paragraphs] is made of the texts of the
    words that [get_hocr_words] finds in the yielded paragraph. *)
Theorem low_confidence_never_output (doc : list Page) (page : Page) (p : Paragraph) :
  (get_hocr_words p = kept (all_words p)
   /\ Forall (fun w => MIN_WORD_CONF <= confidence w) (get_hocr_words p))
  /\ hocr_paragraph_text p = (spaced (get_hocr_words p), truthy (get_hocr_words p))
  /\ (hocr_page_text Page word_data page
        = page_text_of (map only_confident (word_data page))
      /\ Forall (fun w => MIN_WORD_CONF <= confidence w)
                (concat (map all_words (map only_confident (word_data page)))))
  /\ Forall (fun y => ytext y = spaced (get_hocr_words (yparagraph y))
                      /\ Forall (fun w => MIN_WORD_CONF <= confidence w)
                                (get_hocr_words (yparagraph y)))
            (hocr_paragraphs Page word_data_fast dimensions doc).
Proof.
  split; [|split; [|split]].
  - rewrite get_hocr_words_eq. split; [reflexivity|apply kept_confident].
  - rewrite get_hocr_words_eq. apply hocr_paragraph_text_eq.
  - split; [|apply only_confident_words].
    rewrite page_text_of_kept. apply hocr_page_text_of.
  - destruct (pages_loop_groups doc 0 [] (List.Forall_nil _))
      as (G & rest & out & Hrun & Hy & _ & HG & _).
    unfold hocr_paragraphs, hocr_paragraphs_run. rewrite Hrun. cbn [snd].
    clear Hrun. induction Hy as [|y g out G [Hp Ht] _ IH]; [constructor|].
    apply Forall_cons in HG as [[Hzs Hc] HG].
    constructor; [|exact (IH HG)].
    rewrite get_hocr_words_eq. split; [|apply kept_confident].
    rewrite Ht, Hp, (kept_merged _ _ Hzs), hocr_paragraph_text_eq. reflexivity.
Qed.

(** C2 (as amended). For three consecutive paragraphs [P1] with content,
    [P2] without content and [P3] with content, the generator yields two
    tuples: one for [P1], with the text of [P1], and one whose paragraph has
    the lines of [P2] followed by the lines of [P3] and whose text is the
    text of [P3].  The lines of [P1] are not in the second tuple.  This holds
    wherever the three paragraphs stand on a page, and in particular for a
    document of one page with these three paragraphs. *)
Theorem three_paragraph_run (page : Page) (P1 P2 P3 : Paragraph) (t1 t3 : pystr) :
  hocr_paragraph_text P1 = (t1, true) ->
  has_content P2 = false ->
  hocr_paragraph_text P3 = (t3, true) ->
  word_data_fast page = [P1; P2; P3] ->
  (forall (page_no w h : Z) (txt : pystr) (ps : list Paragraph),
      gen_for (paragraphs_body page_no w h) (txt, ps) [P1; P2; P3]
      = (([], []),
         [(merged ps P1, t1, page_no, w, h);
          ({| lines := lines P2 ++ lines P3 |}, t3, page_no, w, h)]))
  /\ hocr_paragraphs Page word_data_fast dimensions [page]
     = [(P1, t1, 0, (dimensions page).1, (dimensions page).2);
        ({| lines := lines P2 ++ lines P3 |}, t3, 0,
         (dimensions page).1, (dimensions page).2)].
Proof.
  intros H1 H2 H3 Hpage.
  assert (Hc1 : has_content P1 = true) by (unfold has_content; rewrite H1; reflexivity).
  assert (Hc3 : has_content P3 = true) by (unfold has_content; rewrite H3; reflexivity).
  assert (Hloop : forall (page_no w h : Z) (txt : pystr) (ps : list Paragraph),
      gen_for (paragraphs_body page_no w h) (txt, ps) [P1; P2; P3]
      = (([], []),
         [(merged ps P1, t1, page_no, w, h);
          ({| lines := lines P2 ++ lines P3 |}, t3, page_no, w, h)])).
  { intros page_no w h txt ps. cbn [gen_for].
    rewrite paragraphs_body_eq, Hc1. rewrite paragraphs_body_eq, H2.
    rewrite paragraphs_body_eq, Hc3. rewrite H1, H3. cbn [fst app].
    unfold merged at 2. cbn [truthy map concat]. rewrite app_nil_r.
    reflexivity. }
  split; [exact Hloop|].
  unfold hocr_paragraphs, hocr_paragraphs_run. cbn [gen_for].
  rewrite pages_body_eq, Hpage, Hloop. reflexivity.
Qed.

Lemma pages_loop_no_content between : forall txt ps page_no,
  Forall (fun pg => Forall (fun p => has_content p = false) (word_data_fast pg))
         between ->
  pages_loop (txt, ps, page_no) between
  = ((txt, ps ++ concat (map word_data_fast between), page_no + len between), []).
Proof.
  induction between as [|pg between IH]; intros txt ps page_no Hb.
  - cbn [gen_for map concat]. unfold len. cbn [length].
    rewrite app_nil_r, Z.add_0_r. reflexivity.
  - apply Forall_cons in Hb as [Hpg Hb]. cbn [gen_for map concat].
    rewrite pages_body_eq, (paragraphs_loop_no_content _ _ _ _ _ _ Hpg).
    rewrite (IH _ _ _ Hb), len_cons, <- app_assoc, Z.add_assoc. reflexivity.
Qed.

Lemma pages_loop_state doc ps page_no :
  exists rest out,
    pages_loop ([], ps, page_no) doc = (([], rest, page_no + len doc), out).
Proof.
  revert ps page_no. induction doc as [|page doc IH]; intros ps page_no.
  - exists ps, []. unfold len. cbn [gen_for length]. rewrite Z.add_0_r. reflexivity.
  - cbn [gen_for]. rewrite pages_body_eq.
    pose proof (paragraphs_loop_text page_no (dimensions page).1 (dimensions page).2
                  (word_data_fast page) ps) as Ht.
    destruct (gen_for (paragraphs_body _ _ _) _ _) as [[t q] o]. cbn in Ht. subst t.
    destruct (IH q (page_no + 1)) as (rest & out & ->).
    exists rest, (o ++ out). rewrite len_cons, Z.add_assoc. reflexivity.
Qed.

(** C10. The list of pending paragraphs is kept from one page to the next.
    When page N ends with a paragraph [z] without content, the pages between
    have no paragraph with content, and [c] is the first paragraph with
    content of a later page M, then [z] is pending at the end of page N and
    the next tuple yielded after page N is the one for [c]: its paragraph has
    the lines of everything pending ([z] among them) followed by the lines of
    [c], its text is the text of [c], and its page number, width and height
    are those of page M. *)
Theorem pending_crosses_pages (before : list Page) (pageN : Page)
    (between : list Page) (pageM : Page) (after : list Page)
    (qs : list Paragraph) (z : Paragraph)
    (zs : list Paragraph) (c : Paragraph) (more : list Paragraph) :
  word_data_fast pageN = qs ++ [z] ->
  has_content z = false ->
  Forall (fun pg => Forall (fun p => has_content p = false) (word_data_fast pg))
         between ->
  word_data_fast pageM = zs ++ c :: more ->
  Forall (fun p => has_content p = false) zs ->
  has_content c = true ->
  exists (pending : list Paragraph) (later : list Yielded),
    (hocr_paragraphs_run Page word_data_fast dimensions (before ++ [pageN])).1.1.2
    = pending ++ [z]
    /\ hocr_paragraphs Page word_data_fast dimensions
         (before ++ pageN :: between ++ pageM :: after)
       = hocr_paragraphs Page word_data_fast dimensions (before ++ [pageN])
         ++ ({| lines :=
                  concat (map lines (pending ++ [z]
                                     ++ concat (map word_data_fast between) ++ zs))
                  ++ lines c |},
             (hocr_paragraph_text c).1,
             len before + 1 + len between,
             (dimensions pageM).1, (dimensions pageM).2) :: later.
Proof.
  intros HN Hz Hbetween HM Hzs Hc.
  (* the state at the end of page N *)
  assert (HrunN : exists pending outN,
             run (before ++ [pageN])
             = (([], pending ++ [z], len before + 1), outN)).
  { unfold hocr_paragraphs_run. rewrite gen_for_app.
    destruct (pages_loop_state before [] 0) as (ps0 & out0 & ->).
    cbn [gen_for]. rewrite pages_body_eq, HN, gen_for_app.
    pose proof (paragraphs_loop_text (0 + len before) (dimensions pageN).1
                  (dimensions pageN).2 qs ps0) as Ht.
    destruct (gen_for (paragraphs_body _ _ _) _ qs) as [[t q] o]. cbn in Ht. subst t.
    cbn [gen_for]. rewrite paragraphs_body_eq, Hz.
    exists q. eexists. rewrite Z.add_0_l. reflexivity. }
  destruct HrunN as (pending & outN & HrunN).
  exists pending.
  replace (before ++ pageN :: between ++ pageM :: after)
    with ((before ++ [pageN]) ++ between ++ pageM :: after)
    by (rewrite <- app_assoc; reflexivity).
  unfold hocr_paragraphs. unfold hocr_paragraphs_run at 2.
  rewrite gen_for_app. fold (run (before ++ [pageN])). rewrite HrunN.
  rewrite gen_for_app, (pages_loop_no_content _ _ _ _ Hbetween).
  cbn [gen_for]. rewrite pages_body_eq, HM, gen_for_app.
  rewrite (paragraphs_loop_no_content _ _ _ _ _ _ Hzs).
  cbn [gen_for]. rewrite paragraphs_body_eq, Hc.
  destruct (gen_for (paragraphs_body _ _ _) _ more) as [[t q] o].
  destruct (gen_for _ _ after) as [[[t' q'] n'] o'].
  cbn [fst snd app]. exists (o ++ o'). split; [reflexivity|].
  unfold merged. rewrite <- !app_assoc.
  replace (truthy (pending ++ [z] ++ concat (map word_data_fast between) ++ zs))
    with true by (destruct pending; reflexivity).
  reflexivity.
Qed.

End Reconstructor.

(** ** Neighbouring pairs *)

Lemma consecutive_cons x y l :
  consecutive (x :: y :: l) = (x, y) :: consecutive (y :: l).
Proof. reflexivity. Qed.

Lemma slices_consecutive (l : list Z) :
  zip (slice_to_last l) (slice_from_1 l) = consecutive l.
Proof.
  unfold slice_to_last, slice_from_1.
  induction l as [|x [|y l] IH]; [reflexivity|reflexivity|].
  rewrite consecutive_cons, <- IH. cbn [length Nat.sub take drop zip_with].
  rewrite !Nat.sub_0_r. reflexivity.
Qed.

Lemma consecutive_lookup (l : list Z) : forall i a b,
  consecutive l !! i = Some (a, b) <-> l !! i = Some a /\ l !! S i = Some b.
Proof.
  induction l as [|x [|y l] IH]; intros i a b.
  - cbn. split; [discriminate|intros [H _]; discriminate].
  - cbn. split; [discriminate|]. intros [_ H]. destruct i; discriminate.
  - rewrite consecutive_cons. destruct i as [|i].
    + cbn. split; [intros [= <- <-]; auto|intros [[= <-] [= <-]]; reflexivity].
    + apply IH.
Qed.

Lemma consecutive_length (l : list Z) : length (consecutive l) = (length l - 1)%nat.
Proof.
  induction l as [|x [|y l] IH]; [reflexivity|reflexivity|].
  rewrite consecutive_cons. cbn [length] in *. lia.
Qed.

Lemma consecutive_short (l : list Z) : (length l < 2)%nat -> consecutive l = [].
Proof. destruct l as [|x [|y l]]; cbn; [reflexivity|reflexivity|lia]. Qed.

(** ** PageFinder *)

Lemma start_element_eq self parser name attrs :
  start_element self parser name attrs
  = if is_page_start (StartElement name attrs)
    then {| page_bytes := page_bytes self ++ [CurrentByteIndex parser] |}
    else self.
Proof.
  unfold start_element, is_page_start, dict_in.
  destruct (decide (name = lit "div")) as [Hn|Hn].
  - rewrite (bool_decide_eq_true_2 _ Hn).
    destruct (decide (attrs !! lit "class" = Some (lit "ocr_page"))) as [Ha|Ha].
    + rewrite (bool_decide_eq_true_2 (_ /\ _)) by auto.
      rewrite (bool_decide_eq_true_2 (_ = Some _)) by exact Ha.
      rewrite bool_decide_eq_true_2 by (rewrite Ha; eauto). reflexivity.
    + rewrite (bool_decide_eq_false_2 (_ /\ _)) by tauto.
      rewrite (bool_decide_eq_false_2 (_ = Some _)) by exact Ha.
      rewrite andb_false_r. reflexivity.
  - rewrite (bool_decide_eq_false_2 _ Hn).
    rewrite (bool_decide_eq_false_2 (_ /\ _)) by tauto. reflexivity.
Qed.

Lemma dispatch_eq h c :
  dispatch h c
  = match boundary c with
    | Some b => {| page_bytes := page_bytes h ++ [b] |}
    | None => h
    end.
Proof.
  destruct c as [parser [name attrs|name]]; unfold dispatch, boundary; cbn [fst snd].
  - rewrite start_element_eq. cbn [is_body_end]. rewrite orb_false_r.
    destruct (is_page_start _); reflexivity.
  - unfold end_element. cbn [is_page_start is_body_end orb].
    destruct (bool_decide _); reflexivity.
Qed.

Lemma omap_cons_eq {A B} (f : A -> option B) x (l : list A) :
  omap f (x :: l)
  = match f x with Some y => y :: omap f l | None => omap f l end.
Proof. reflexivity. Qed.

Lemma page_bytes_boundaries calls : forall h,
  page_bytes (foldl dispatch h calls) = page_bytes h ++ omap boundary calls.
Proof.
  induction calls as [|c calls IH]; intros h.
  - cbn. rewrite app_nil_r. reflexivity.
  - cbn [foldl]. rewrite IH, dispatch_eq, omap_cons_eq.
    destruct (boundary c); cbn [page_bytes].
    + rewrite <- app_assoc. reflexivity.
    + reflexivity.
Qed.

Lemma xml_page_offsets_eq xml_file :
  hocr_get_xml_page_offsets xml_file
  = if not_well_formed xml_file then Raise ExpatError
    else Ok (consecutive (omap boundary (handler_calls xml_file))).
Proof.
  unfold hocr_get_xml_page_offsets, ParseFile.
  destruct (not_well_formed xml_file); cbn [result_bind]; [reflexivity|].
  rewrite slices_consecutive, page_bytes_boundaries. reflexivity.
Qed.

Lemma boundary_page_start pre :
  Forall (fun c : xmlparser * handler_call => is_body_end c.2 = false) pre ->
  omap boundary pre = omap page_start pre.
Proof.
  induction 1 as [|c pre Hc _ IH]; [reflexivity|].
  rewrite !omap_cons_eq, IH. unfold boundary, page_start.
  rewrite Hc, orb_false_r. reflexivity.
Qed.

Lemma boundary_none post :
  Forall (fun c : xmlparser * handler_call => boundary c = None) post ->
  omap boundary post = [].
Proof.
  induction 1 as [|c post Hc _ IH]; [reflexivity|].
  rewrite omap_cons_eq, Hc. exact IH.
Qed.

Lemma boundary_body_end parser : boundary (parser, EndElement (lit "body"))
                                 = Some (CurrentByteIndex parser).
Proof. reflexivity. Qed.

(** C5. [PageFinder] appends the parser's current byte index to [page_bytes]
    at each start of a [div] element whose [class] is [ocr_page] and at each
    end of a [body] element, and at no other call; the function returns the
    pairs of neighbours of that list.  For a document in which the [body]
    element ends once, after the starts of its [n] pages, the result has [n]
    ranges: range [i] starts at the start of page [i] and ends at the start
    of page [i+1], and the last range ends where the [body] element ends. *)
Theorem xml_page_ranges (xml_file : expat_run)
    (pre post : list (xmlparser * handler_call)) (body_end : xmlparser) :
  not_well_formed xml_file = false ->
  handler_calls xml_file = pre ++ (body_end, EndElement (lit "body")) :: post ->
  Forall (fun c => is_body_end c.2 = false) pre ->
  Forall (fun c => boundary c = None) post ->
  let h := foldl dispatch PageFinder_init (handler_calls xml_file) in
  let starts := omap page_start pre in
  page_bytes h = omap boundary (handler_calls xml_file)
  /\ page_bytes h = starts ++ [CurrentByteIndex body_end]
  /\ exists offsets : list (Z * Z),
      hocr_get_xml_page_offsets xml_file = Ok offsets
      /\ offsets = zip (slice_to_last (page_bytes h)) (slice_from_1 (page_bytes h))
      /\ length offsets = length starts
      /\ forall (i : nat) (s : Z),
          starts !! i = Some s ->
          offsets !! i
          = Some (s, default (CurrentByteIndex body_end) (starts !! S i)).
Proof.
  intros Hwf Hcalls Hpre Hpost h starts.
  assert (Hb : page_bytes h = omap boundary (handler_calls xml_file)).
  { unfold h. rewrite page_bytes_boundaries. reflexivity. }
  assert (Hm : page_bytes h = starts ++ [CurrentByteIndex body_end]).
  { rewrite Hb, Hcalls, omap_app, omap_cons_eq, boundary_body_end.
    rewrite (boundary_page_start _ Hpre), (boundary_none _ Hpost). reflexivity. }
  split; [exact Hb|]. split; [exact Hm|].
  exists (consecutive (page_bytes h)).
  split; [|split; [|split]].
  - rewrite xml_page_offsets_eq, Hwf, Hb. reflexivity.
  - symmetry. apply slices_consecutive.
  - rewrite consecutive_length, Hm, length_app. cbn [length]. lia.
  - intros i s Hi. apply consecutive_lookup. rewrite Hm. split.
    + apply lookup_app_l_Some. exact Hi.
    + destruct (starts !! S i) as [s'|] eqn:Hn; cbn [default].
      * apply lookup_app_l_Some. exact Hn.
      * apply lookup_ge_None in Hn. apply lookup_lt_Some in Hi.
        replace (S i) with (length starts) by lia.
        apply list_lookup_middle. reflexivity.
Qed.

Lemma boundaries_without_pages calls :
  Forall (fun c : xmlparser * handler_call => is_page_start c.2 = false) calls ->
  length (omap boundary calls)
  = length (List.filter (fun c : xmlparser * handler_call => is_body_end c.2) calls).
Proof.
  induction 1 as [|c calls Hc _ IH]; [reflexivity|].
  rewrite omap_cons_eq. cbn [List.filter]. unfold boundary. rewrite Hc.
  cbn [orb]. destruct (is_body_end c.2); cbn [length]; [f_equal|]; exact IH.
Qed.

Section Offsets.

Context {Page : Type}.
Variable word_data : Page -> list Paragraph.

Local Abbreviation page_text := (hocr_page_text Page word_data).
Local Abbreviation plaintext_offsets := (hocr_get_plaintext_page_offsets Page word_data).

(** C7. When the parse succeeds and [PageFinder] has recorded fewer than
    two page bytes, [hocr_get_xml_page_offsets] returns the empty list and
    does not raise.  That is the case for a document without pages: no start
    of an [ocr_page] element and at most one end of a [body] element.  For
    such a document [hocr_page_iterator] yields no page, and
    [hocr_get_plaintext_page_offsets] returns the empty list as well. *)
Theorem too_few_boundaries (xml_file : expat_run) :
  not_well_formed xml_file = false ->
  (length (page_bytes (foldl dispatch PageFinder_init (handler_calls xml_file)))
   < 2)%nat
  \/ (Forall (fun c => is_page_start c.2 = false) (handler_calls xml_file)
      /\ (length (List.filter (fun c => is_body_end c.2) (handler_calls xml_file))
          <= 1)%nat) ->
  hocr_get_xml_page_offsets xml_file = Ok []
  /\ hocr_get_plaintext_page_offsets Page word_data [] = Ok [].
Proof.
  intros Hwf Hfew. split; [|reflexivity].
  rewrite xml_page_offsets_eq, Hwf. f_equal. apply consecutive_short.
  destruct Hfew as [Hlen|[Hnone Hbody]].
  - rewrite page_bytes_boundaries in Hlen. exact Hlen.
  - rewrite (boundaries_without_pages _ Hnone). lia.
Qed.

Lemma plaintext_body_eq page_bytes cursor page :
  plaintext_body Page word_data (page_bytes, cursor) page
  = match page_text page with
    | Ok t => Ok (page_bytes ++ [cursor + len t], cursor + len t)
    | Raise e => Raise e
    end.
Proof. reflexivity. Qed.

Lemma plaintext_loop doc : forall page_bytes cursor page_bytes' cursor',
  for_each (plaintext_body Page word_data) (page_bytes, cursor) doc
  = Ok (page_bytes', cursor') ->
  exists texts : list pystr,
    Forall2 (fun page t => page_text page = Ok t) doc texts
    /\ page_bytes' = page_bytes ++ running cursor texts.
Proof.
  induction doc as [|page doc IH]; intros pb cursor pb' cursor'; cbn [for_each].
  - intros [= <- <-]. exists []. rewrite app_nil_r. split; [constructor|reflexivity].
  - rewrite plaintext_body_eq.
    destruct (hocr_page_text Page word_data page) as [t|e] eqn:Ht; [|discriminate].
    intros Hrest. destruct (IH _ _ _ _ Hrest) as (texts & Htexts & ->).
    exists (t :: texts). split; [constructor; assumption|].
    cbn [running]. rewrite <- app_assoc. reflexivity.
Qed.

Lemma plaintext_offsets_eq doc offsets :
  plaintext_offsets doc = Ok offsets ->
  exists texts : list pystr,
    Forall2 (fun page t => page_text page = Ok t) doc texts
    /\ offsets = consecutive (0 :: running 0 texts).
Proof.
  unfold hocr_get_plaintext_page_offsets.
  destruct (for_each _ _ doc) as [[pb cursor]|e] eqn:Hloop;
    cbn [result_bind]; [|discriminate].
  intros [= <-]. destruct (plaintext_loop _ _ _ _ _ Hloop) as (texts & Htexts & ->).
  exists texts. split; [exact Htexts|]. apply slices_consecutive.
Qed.

Lemma running_length cursor texts : length (running cursor texts) = length texts.
Proof.
  revert cursor. induction texts as [|t texts IH]; intros cursor; cbn [running length];
    [reflexivity|]. rewrite IH. reflexivity.
Qed.

Lemma consecutive_running texts : forall cursor,
  Forall2 (fun (t : pystr) (p : Z * Z) => p.2 - p.1 = len t)
          texts (consecutive (cursor :: running cursor texts)).
Proof.
  induction texts as [|t texts IH]; intros cursor; cbn [running].
  - constructor.
  - rewrite consecutive_cons. constructor; [cbn [fst snd]; lia|apply IH].
Qed.

(** What the offsets measure: the width of the range of a page is [len] of
    the [str] that [hocr_page_text] returns for it, a number of code points. *)
Lemma plaintext_offsets_advance doc offsets :
  plaintext_offsets doc = Ok offsets ->
  Forall2 (fun page (p : Z * Z) =>
             exists t, page_text page = Ok t /\ p.2 - p.1 = len t)
          doc offsets.
Proof.
  intros H. destruct (plaintext_offsets_eq _ _ H) as (texts & Htexts & ->).
  pose proof (consecutive_running texts 0) as Hw. revert Hw.
  generalize (consecutive (0 :: running 0 texts)). clear H.
  induction Htexts as [|page t doc texts Ht _ IH]; intros l Hl;
    inversion Hl; subst; constructor; eauto.
Qed.

(** C6. Whenever [hocr_get_plaintext_page_offsets] returns, the pairs it
    returns start at zero and are contiguous: the first pair starts at 0 and
    each pair ends where the next one starts.  There is one pair per page. *)
Theorem plaintext_offsets_contiguous (doc : list Page) (offsets : list (Z * Z)) :
  hocr_get_plaintext_page_offsets Page word_data doc = Ok offsets ->
  (forall p, offsets !! 0%nat = Some p -> p.1 = 0)
  /\ (forall (i : nat) (p q : Z * Z),
        offsets !! i = Some p -> offsets !! S i = Some q -> p.2 = q.1)
  /\ length offsets = length doc.
Proof.
  intros H. destruct (plaintext_offsets_eq _ _ H) as (texts & Htexts & ->).
  split; [|split].
  - intros [a b] Hp. apply consecutive_lookup in Hp as [[= <-] _]. reflexivity.
  - intros i [a b] [c d] Hp Hq.
    apply consecutive_lookup in Hp as [_ Hp].
    apply consecutive_lookup in Hq as [Hq _].
    cbn [fst snd]. congruence.
  - rewrite consecutive_length. cbn [length]. rewrite running_length.
    apply Forall2_length in Htexts. lia.
Qed.

(** When it returns: [hocr_page_text] raises only where [encode] does, on a
    surrogate in the text of a word that passes the filter. *)
Lemma lstrip_Forall (P : Z -> Prop) s : Forall P s -> Forall P (lstrip s).
Proof.
  induction 1 as [|c s Hc Hs IH]; cbn [lstrip]; [constructor|].
  destruct (isspace c); [exact IH|constructor; assumption].
Qed.

Lemma strip_Forall (P : Z -> Prop) s : Forall P s -> Forall P (strip s).
Proof.
  intros H. unfold strip, rstrip.
  apply Forall_rev, lstrip_Forall, Forall_rev, lstrip_Forall, H.
Qed.

Lemma spaced_scalar ws :
  Forall (fun w => Forall scalar_value (text w)) ws ->
  Forall scalar_value (spaced ws).
Proof.
  induction 1 as [|w ws Hw _ IH]; unfold spaced; cbn [map concat]; [constructor|].
  apply Forall_app. split; [|exact IH].
  apply Forall_app. split; [exact Hw|].
  constructor; [|constructor]. split; [cbn; lia|reflexivity].
Qed.

Lemma page_text_lines_return ls : forall txt block_data,
  Forall (fun w => Forall scalar_value (text w)) (kept (concat (map words ls))) ->
  exists st, for_each page_text_line (txt, block_data) ls = Ok st.
Proof.
  induction ls as [|l ls IH]; intros txt bd Hs; cbn [for_each]; [eauto|].
  cbn [map concat] in Hs. rewrite kept_app in Hs. apply Forall_app in Hs as [Hl Hls].
  rewrite page_text_line_eq.
  destruct (proj1 (utf8_encode_scalar _) (strip_Forall _ _ (spaced_scalar _ Hl)))
    as [bs ->].
  apply IH. exact Hls.
Qed.

Lemma page_text_returns page :
  Forall (fun w => Forall scalar_value (text w))
         (kept (concat (map all_words (word_data page)))) ->
  exists t, page_text page = Ok t.
Proof.
  unfold hocr_page_text. generalize (@nil Z).
  induction (word_data page) as [|p ps IH]; intros txt Hs; cbn [for_each]; [eauto|].
  cbn [map concat] in Hs. rewrite kept_app in Hs. apply Forall_app in Hs as [Hp Hps].
  unfold page_text_paragraph at 1.
  destruct (page_text_lines_return (lines p) txt false Hp) as [[t bd] ->].
  cbn [result_bind]. destruct bd; apply IH; exact Hps.
Qed.

Lemma plaintext_offsets_return doc :
  Forall (fun page =>
            Forall (fun w => Forall scalar_value (text w))
                   (kept (concat (map all_words (word_data page))))) doc ->
  exists offsets, plaintext_offsets doc = Ok offsets.
Proof.
  intros Hdoc. unfold hocr_get_plaintext_page_offsets.
  assert (Hloop : forall st, exists st',
             for_each (plaintext_body Page word_data) st doc = Ok st').
  { induction Hdoc as [|page doc Hpage _ IH]; intros [pb cursor]; cbn [for_each];
      [eauto|].
    rewrite plaintext_body_eq. destruct (page_text_returns page Hpage) as [t ->].
    apply IH. }
  destruct (Hloop ([0], 0)) as [[pb cursor] ->]. cbn [result_bind]. eauto.
Qed.

End Offsets.

(** * Further properties *)

(** ** hocr_page_text: what it returns and when it raises *)



Lemma page_text_lines_frame ls : forall txt block_data,
  for_each page_text_line (txt, block_data) ls
  = match for_each page_text_line ([], false) ls with
    | Ok (t, b) => Ok (txt ++ t, block_data || b)
    | Raise e => Raise e
    end.
Proof.
  induction ls as [|l ls IH]; intros txt bd; cbn [for_each].
  - rewrite app_nil_r, orb_false_r. reflexivity.
  - rewrite !page_text_line_eq.
    destruct (str_encode_utf8 _); [|reflexivity].
    rewrite (IH (txt ++ _)), (IH ([] ++ _)).
    destruct (for_each page_text_line ([], false) ls) as [[t b]|e]; [|reflexivity].
    cbn [app orb]. rewrite <- app_assoc, orb_assoc. reflexivity.
Qed.

Lemma page_text_lines_value ls t b :
  for_each page_text_line ([], false) ls = Ok (t, b) ->
  t = concat (map (fun l => line_out (words l)) ls)
  /\ b = truthy (kept (concat (map words ls))).
Proof.
  revert t b. induction ls as [|l ls IH]; intros t b; cbn [for_each].
  - intros [= <- <-]. split; reflexivity.
  - rewrite page_text_line_eq.
    destruct (str_encode_utf8 _); [|discriminate].
    rewrite page_text_lines_frame.
    destruct (for_each page_text_line ([], false) ls) as [[t' b']|e]; [|discriminate].
    intros [= <- <-]. destruct (IH _ _ eq_refl) as [-> ->].
    cbn [map concat app orb]. rewrite kept_app, truthy_app. split; reflexivity.
Qed.

Lemma page_text_paragraph_frame txt p :
  page_text_paragraph txt p
  = match page_text_paragraph [] p with
    | Ok t => Ok (txt ++ t)
    | Raise e => Raise e
    end.
Proof.
  unfold page_text_paragraph. rewrite page_text_lines_frame.
  destruct (for_each page_text_line ([], false) (lines p)) as [[t b]|e];
    cbn [result_bind orb app]; [|reflexivity].
  destruct b; [rewrite app_assoc|]; reflexivity.
Qed.

Lemma page_text_paragraph_value p t :
  page_text_paragraph [] p = Ok t -> t = paragraph_out p.
Proof.
  unfold page_text_paragraph, paragraph_out, all_words.
  destruct (for_each page_text_line ([], false) (lines p)) as [[t' b]|e] eqn:Hl;
    cbn [result_bind]; [|discriminate].
  destruct (page_text_lines_value _ _ _ Hl) as [-> ->].
  destruct (truthy _); intros [= <-]; [reflexivity|].
  rewrite app_nil_r. reflexivity.
Qed.

Lemma page_text_paragraphs_frame ps : forall txt,
  for_each page_text_paragraph txt ps
  = match for_each page_text_paragraph [] ps with
    | Ok t => Ok (txt ++ t)
    | Raise e => Raise e
    end.
Proof.
  induction ps as [|p ps IH]; intros txt; cbn [for_each].
  - rewrite app_nil_r. reflexivity.
  - rewrite (page_text_paragraph_frame txt).
    destruct (page_text_paragraph [] p) as [t|e]; [|reflexivity].
    rewrite (IH (txt ++ t)), (IH t).
    destruct (for_each page_text_paragraph [] ps); [|reflexivity].
    rewrite app_assoc. reflexivity.
Qed.

Lemma page_text_of_value ps t : page_text_of ps = Ok t -> t = page_out ps.
Proof.
  unfold page_text_of, hocr_page_text, page_out.
  revert t. induction ps as [|p ps IH]; intros t; cbn [for_each map concat].
  - intros [= <-]. reflexivity.
  - destruct (page_text_paragraph [] p) as [tp|e] eqn:Hp; [|discriminate].
    apply page_text_paragraph_value in Hp as ->.
    rewrite page_text_paragraphs_frame.
    destruct (for_each page_text_paragraph [] ps) as [t'|e]; [|discriminate].
    intros [= <-]. rewrite (IH _ eq_refl). reflexivity.
Qed.









Lemma lines_out_no_words (ls : list Line) :
  kept (concat (map words ls)) = [] ->
  concat (map (fun l => line_out (words l)) ls) = [].
Proof.
  induction ls as [|l ls IHl]; cbn [map concat]; [reflexivity|].
  rewrite kept_app. intros H. apply app_eq_nil in H as [Hl Hls].
  rewrite (IHl Hls), app_nil_r. unfold line_out. rewrite Hl. reflexivity.
Qed.

Lemma paragraph_out_no_words p : kept (all_words p) = [] -> paragraph_out p = [].
Proof.
  intros Hp. unfold paragraph_out. rewrite Hp. cbn [truthy].
  rewrite app_nil_r. apply lines_out_no_words, Hp.
Qed.

Lemma page_out_no_words ps : page_kept ps = [] -> page_out ps = [].
Proof.
  unfold page_kept, page_out.
  induction ps as [|p ps IH]; cbn [map concat]; [reflexivity|].
  rewrite kept_app. intros H. apply app_eq_nil in H as [Hp Hps].
  rewrite (IH Hps), app_nil_r. apply paragraph_out_no_words, Hp.
Qed.

Lemma paragraph_out_end p :
  paragraph_out p = [] \/ exists body, paragraph_out p = body ++ newline.
Proof.
  destruct (kept (all_words p)) as [|w ws] eqn:Hk.
  - left. apply paragraph_out_no_words, Hk.
  - right. unfold paragraph_out. rewrite Hk. cbn [truthy]. eauto.
Qed.

Lemma page_out_end ps :
  page_out ps = [] \/ exists body, page_out ps = body ++ newline.
Proof.
  unfold page_out. induction ps as [|p ps IH]; cbn [map concat]; [left; reflexivity|].
  destruct IH as [->|[body ->]].
  - rewrite app_nil_r. apply paragraph_out_end.
  - right. exists (paragraph_out p ++ body). rewrite app_assoc. reflexivity.
Qed.

Lemma page_out_app ps1 ps2 : page_out (ps1 ++ ps2) = page_out ps1 ++ page_out ps2.
Proof. unfold page_out. rewrite map_app, concat_app. reflexivity. Qed.

Lemma encodable_app ps1 ps2 :
  encodable (ps1 ++ ps2) <-> encodable ps1 /\ encodable ps2.
Proof.
  unfold encodable, page_kept. rewrite map_app, concat_app, kept_app.
  apply Forall_app.
Qed.

Lemma page_text_of_empty ps : page_text_of ps = Ok [] <-> page_kept ps = [].
Proof.
  split.
  - intros H. apply page_text_of_value in H. symmetry in H.
    unfold page_kept. revert H. unfold page_out.
    induction ps as [|p ps IH]; cbn [map concat]; [reflexivity|].
    intros H. apply app_eq_nil in H as [Hp Hps].
    rewrite kept_app, (IH Hps), app_nil_r.
    unfold paragraph_out in Hp. apply app_eq_nil in Hp as [_ Hp].
    destruct (kept (all_words p)); [reflexivity|discriminate].
  - intros H.
    assert (Henc : encodable ps) by (unfold encodable; rewrite H; constructor).
    destruct (page_text_returns (fun d => d) _ Henc) as [t Hok].
    rewrite hocr_page_text_of in Hok. rewrite Hok. f_equal.
    rewrite (page_text_of_value _ _ Hok). apply page_out_no_words, H.
Qed.

Section PageText.

Context {Page : Type}.
Variable word_data : Page -> list Paragraph.


(** X2. The text of a page is empty exactly when no word of the page passes
    the filter. *)
Theorem page_text_empty_iff (page : Page) :
  hocr_page_text Page word_data page = Ok [] <-> page_kept (word_data page) = [].
Proof. rewrite hocr_page_text_of. apply page_text_of_empty. Qed.

(** X3. A page text that is not empty ends with a newline. *)
Theorem page_text_ends_with_newline (page : Page) (t : pystr) :
  hocr_page_text Page word_data page = Ok t ->
  t <> [] ->
  exists body, t = body ++ newline.
Proof.
  rewrite hocr_page_text_of. intros H Hne. apply page_text_of_value in H. subst t.
  destruct (page_out_end (word_data page)) as [He|Hb]; [contradiction|exact Hb].
Qed.

(** X4. The text of a page is the text of its first paragraphs followed by
    the text of the others: for a page whose word data is the word data of
    [page1] followed by that of [page2], [hocr_page_text] returns the two
    texts one after the other, and raises when one of the two calls does. *)
Theorem page_text_of_joined_word_data (page page1 page2 : Page) :
  word_data page = word_data page1 ++ word_data page2 ->
  hocr_page_text Page word_data page
  = match hocr_page_text Page word_data page1,
          hocr_page_text Page word_data page2 with
    | Ok t1, Ok t2 => Ok (t1 ++ t2)
    | Raise e, _ => Raise e
    | Ok _, Raise e => Raise e
    end.
Proof.
  intros Hwd. unfold hocr_page_text. rewrite Hwd, for_each_app.
  destruct (for_each page_text_paragraph [] (word_data page1)) as [t1|e];
    [|reflexivity].
  rewrite page_text_paragraphs_frame.
  destruct (for_each page_text_paragraph [] (word_data page2)); reflexivity.
Qed.

End PageText.

(** ** hocr_paragraph_text and get_hocr_words *)

(** X5. Joining the lines of two paragraphs joins their texts and their
    words: the text of the paragraph with the lines [ls1 ++ ls2] is the text
    for [ls1] followed by the text for [ls2], its flag is the disjunction of
    the two flags, and [get_hocr_words] returns the words for [ls1] followed
    by the words for [ls2]. *)
Theorem paragraph_of_joined_lines (ls1 ls2 : list Line) :
  hocr_paragraph_text {| lines := ls1 ++ ls2 |}
  = ((hocr_paragraph_text {| lines := ls1 |}).1
       ++ (hocr_paragraph_text {| lines := ls2 |}).1,
     (hocr_paragraph_text {| lines := ls1 |}).2
       || (hocr_paragraph_text {| lines := ls2 |}).2)
  /\ get_hocr_words {| lines := ls1 ++ ls2 |}
     = get_hocr_words {| lines := ls1 |} ++ get_hocr_words {| lines := ls2 |}.
Proof.
  rewrite !hocr_paragraph_text_eq, !get_hocr_words_eq. unfold all_words.
  cbn [lines fst snd]. rewrite map_app, concat_app, kept_app, spaced_app, truthy_app.
  split; reflexivity.
Qed.

Lemma spaced_cons w ws : spaced (w :: ws) = (text w ++ lit " ") ++ spaced ws.
Proof. reflexivity. Qed.

(** X6. The words returned by [get_hocr_words] line up with the text of
    [hocr_paragraph_text]: a returned word starts in the text after the
    words returned before it, each with its space, and is followed by a
    space and then by the words returned after it. *)
Theorem words_align_with_text (p : Paragraph) (before after : list Word) (w : Word) :
  get_hocr_words p = before ++ w :: after ->
  let ptext := (hocr_paragraph_text p).1 in
  let start := length (spaced before) in
  take (length (text w)) (drop start ptext) = text w
  /\ drop (start + length (text w)) ptext = lit " " ++ spaced after.
Proof.
  intros Hw ptext start. unfold ptext, start.
  rewrite hocr_paragraph_text_eq, <- get_hocr_words_eq, Hw. cbn [fst].
  rewrite spaced_app, spaced_cons, <- app_assoc. split.
  - rewrite drop_app_length. apply take_app_length.
  - rewrite <- drop_drop, drop_app_length. apply drop_app_length.
Qed.

(** ** hocr_paragraphs: what is yielded *)

Lemma has_content_text p : has_content p = true -> (hocr_paragraph_text p).1 <> [].
Proof.
  rewrite has_content_eq, hocr_paragraph_text_eq. cbn [fst]. intros H Hs.
  apply spaced_nil_inv in Hs. rewrite Hs in H. discriminate.
Qed.

Lemma content_count (G : list group) (rest : list Paragraph) :
  Forall group_ok G ->
  Forall (fun z => has_content z = false) rest ->
  length (List.filter has_content (concat (map group_paragraphs G) ++ rest))
  = length G.
Proof.
  assert (Hnone : forall zs, Forall (fun z => has_content z = false) zs ->
                             List.filter has_content zs = []).
  { induction 1 as [|z zs Hz _ IH]; cbn [List.filter]; [reflexivity|].
    rewrite Hz. exact IH. }
  intros HG Hrest. rewrite List.filter_app, (Hnone _ Hrest), app_nil_r.
  induction HG as [|[zs c] G [Hzs Hc] _ IH]; cbn [map concat]; [reflexivity|].
  rewrite List.filter_app. unfold group_paragraphs at 1. cbn [fst snd] in *.
  rewrite List.filter_app, (Hnone _ Hzs). cbn [List.filter app].
  rewrite Hc, length_app. cbn [length]. rewrite IH. reflexivity.
Qed.

Lemma paragraphs_loop_all_content page_no w h items :
  Forall (fun p => has_content p = true) items ->
  gen_for (paragraphs_body page_no w h) ([], []) items
  = (([], []),
     map (fun p => (p, (hocr_paragraph_text p).1, page_no, w, h)) items).
Proof.
  induction 1 as [|p items Hp _ IH]; cbn [gen_for map]; [reflexivity|].
  rewrite paragraphs_body_eq, Hp, IH. reflexivity.
Qed.

Lemma paragraphs_loop_tags page_no w h items ps :
  Forall (fun z => has_content z = false) ps ->
  exists (rest : list Paragraph) (out : list Yielded),
    gen_for (paragraphs_body page_no w h) ([], ps) items = (([], rest), out)
    /\ Forall (fun z => has_content z = false) rest
    /\ Forall (fun y => ypage_no y = page_no /\ ywidth y = w /\ yheight y = h
                        /\ exists c, c ∈ items /\ has_content c = true
                                     /\ ytext y = (hocr_paragraph_text c).1) out.
Proof.
  intros Hps.
  destruct (paragraphs_loop_groups page_no w h items ps Hps)
    as (G & rest & Hrun & Hpart & HG & Hrest).
  exists rest. eexists. split; [exact Hrun|]. split; [exact Hrest|].
  assert (Hin : Forall (fun g : group => g.2 ∈ items) G).
  { apply List.Forall_forall. intros g Hg.
    assert (Hmem : g.2 ∈ ps ++ items).
    { rewrite Hpart. apply elem_of_app. left.
      apply list_elem_of_In, in_concat. exists (group_paragraphs g). split.
      - apply in_map, Hg.
      - apply list_elem_of_In. unfold group_paragraphs.
        apply elem_of_app. right. apply list_elem_of_singleton. reflexivity. }
    apply elem_of_app in Hmem as [Hmem|Hmem]; [|exact Hmem].
    rewrite List.Forall_forall in HG, Hps.
    destruct (HG g Hg) as [_ Hc].
    rewrite (Hps _ (proj1 (list_elem_of_In _ _) Hmem)) in Hc. discriminate. }
  clear Hrun Hpart.
  induction G as [|g G IH]; cbn [map]; [constructor|].
  apply Forall_cons in HG as [[_ Hc] HG]. apply Forall_cons in Hin as [Hg Hin].
  constructor; [|exact (IH HG Hin)].
  repeat split. exists g.2. repeat split; assumption.
Qed.

Section Yields.

Context {Page : Type}.
Variable word_data_fast : Page -> list Paragraph.
Variable dimensions : Page -> Z * Z.

Local Abbreviation pages_loop := (gen_for (pages_body Page word_data_fast dimensions)).

(** X7. [hocr_paragraphs] never yields a tuple without content: the text of
    every yielded tuple is not empty and [get_hocr_words] finds a word in
    every yielded paragraph. *)
Theorem yields_have_content (doc : list Page) :
  Forall (fun y => ytext y <> [] /\ get_hocr_words (yparagraph y) <> [])
         (hocr_paragraphs Page word_data_fast dimensions doc).
Proof.
  destruct (pages_loop_groups word_data_fast dimensions doc 0 [] (List.Forall_nil _))
    as (G & rest & out & Hrun & Hy & _ & HG & _).
  unfold hocr_paragraphs, hocr_paragraphs_run. rewrite Hrun. cbn [snd]. clear Hrun.
  induction Hy as [|y g out G [Hp Ht] _ IH]; [constructor|].
  apply Forall_cons in HG as [[Hzs Hc] HG]. constructor; [|exact (IH HG)].
  split.
  - rewrite Ht. apply has_content_text, Hc.
  - rewrite Hp, get_hocr_words_eq, (kept_merged _ _ Hzs).
    rewrite has_content_eq in Hc. intros Hk. rewrite Hk in Hc. discriminate.
Qed.

(** X8. One tuple is yielded for each paragraph with content: the number of
    yielded tuples is the number of paragraphs of the document for which
    [hocr_paragraph_text] returns a true flag. *)
Theorem yield_count (doc : list Page) :
  length (hocr_paragraphs Page word_data_fast dimensions doc)
  = length (List.filter has_content (concat (map word_data_fast doc))).
Proof.
  destruct (pages_loop_groups word_data_fast dimensions doc 0 [] (List.Forall_nil _))
    as (G & rest & out & Hrun & Hy & Hpart & HG & Hrest).
  unfold hocr_paragraphs, hocr_paragraphs_run. rewrite Hrun. cbn [snd].
  cbn [app] in Hpart. rewrite Hpart, (content_count _ _ HG Hrest).
  eapply Forall2_length, Hy.
Qed.

(** X9. Paragraphs without content at the end of a document are dropped:
    pages that follow and have no paragraph with content add nothing to what
    is yielded. *)
Theorem trailing_pages_without_content (doc tail : list Page) :
  Forall (fun pg => Forall (fun p => has_content p = false) (word_data_fast pg))
         tail ->
  hocr_paragraphs Page word_data_fast dimensions (doc ++ tail)
  = hocr_paragraphs Page word_data_fast dimensions doc.
Proof.
  intros Htail. unfold hocr_paragraphs, hocr_paragraphs_run.
  rewrite gen_for_app.
  destruct (pages_loop ([], [], 0) doc) as [[[txt ps] n] out].
  rewrite (pages_loop_no_content word_data_fast dimensions _ _ _ _ Htail).
  cbn [snd]. apply app_nil_r.
Qed.

Lemma pages_loop_tags doc : forall page_no ps,
  Forall (fun z => has_content z = false) ps ->
  Forall (fun y => exists (k : nat) (page : Page) (c : Paragraph),
              ypage_no y = page_no + Z.of_nat k
              /\ doc !! k = Some page
              /\ dimensions page = (ywidth y, yheight y)
              /\ c ∈ word_data_fast page
              /\ has_content c = true
              /\ ytext y = (hocr_paragraph_text c).1)
         (pages_loop ([], ps, page_no) doc).2.
Proof.
  induction doc as [|page doc IH]; intros page_no ps Hps; cbn [gen_for];
    [constructor|].
  rewrite pages_body_eq.
  destruct (paragraphs_loop_tags page_no (dimensions page).1 (dimensions page).2
              (word_data_fast page) ps Hps) as (r1 & out1 & Hrun1 & Hr1 & Hout1).
  rewrite Hrun1. specialize (IH (page_no + 1) r1 Hr1).
  destruct (pages_loop ([], r1, page_no + 1) doc) as [st out2]. cbn [snd] in *.
  apply Forall_app. split.
  - eapply Forall_impl; [exact Hout1|]. cbn beta.
    intros y (Hn & Hw & Hh & c & Hc1 & Hc2 & Hc3).
    exists 0%nat, page, c. rewrite Hn, Hw, Hh.
    repeat split; try assumption; [lia|]. destruct (dimensions page); reflexivity.
  - eapply Forall_impl; [exact IH|]. cbn beta.
    intros y (k & pg & c & Hn & Hk & Hrest).
    exists (S k), pg, c. split; [lia|]. split; [exact Hk|exact Hrest].
Qed.

(** X10. Every yielded tuple carries the number and the dimensions of the
    page of its paragraph with content: its page number is the index of a
    page of the document, counted from 0, its width and height are what
    [hocr_page_get_dimensions] returns for that page, and its text is the
    text of a paragraph with content of that page. *)
Theorem yield_page_of_content (doc : list Page) :
  Forall (fun y => exists (page : Page) (c : Paragraph),
              0 <= ypage_no y < len doc
              /\ doc !! Z.to_nat (ypage_no y) = Some page
              /\ dimensions page = (ywidth y, yheight y)
              /\ c ∈ word_data_fast page
              /\ has_content c = true
              /\ ytext y = (hocr_paragraph_text c).1)
         (hocr_paragraphs Page word_data_fast dimensions doc).
Proof.
  unfold hocr_paragraphs, hocr_paragraphs_run.
  eapply Forall_impl; [apply (pages_loop_tags doc 0 [] (List.Forall_nil _))|].
  cbn beta. intros y (k & page & c & Hn & Hk & Hrest).
  exists page, c. pose proof (lookup_lt_Some _ _ _ Hk) as Hlt.
  split; [unfold len; lia|]. split; [|exact Hrest].
  rewrite Hn, Z.add_0_l, Nat2Z.id. exact Hk.
Qed.

Lemma sorted_after_page (n : Z) (out1 out2 : list Yielded) :
  Forall (fun y => ypage_no y = n) out1 ->
  StronglySorted Z.le (map ypage_no out2) ->
  Forall (fun y => n <= ypage_no y) out2 ->
  StronglySorted Z.le (map ypage_no (out1 ++ out2)).
Proof.
  intros H1 Hs Hge. induction H1 as [|y out1 Hy H1 IH]; cbn [map app]; [exact Hs|].
  constructor; [exact IH|].
  apply List.Forall_forall. intros m Hin.
  apply in_map_iff in Hin as (y' & <- & Hin).
  rewrite List.Forall_forall in H1, Hge.
  apply in_app_or in Hin as [Hin|Hin].
  - rewrite Hy, (H1 _ Hin). lia.
  - rewrite Hy. apply Hge, Hin.
Qed.

Lemma pages_loop_sorted doc : forall page_no ps,
  Forall (fun z => has_content z = false) ps ->
  StronglySorted Z.le (map ypage_no (pages_loop ([], ps, page_no) doc).2)
  /\ Forall (fun y => page_no <= ypage_no y) (pages_loop ([], ps, page_no) doc).2.
Proof.
  induction doc as [|page doc IH]; intros page_no ps Hps; cbn [gen_for].
  - split; constructor.
  - rewrite pages_body_eq.
    destruct (paragraphs_loop_tags page_no (dimensions page).1 (dimensions page).2
                (word_data_fast page) ps Hps) as (r1 & out1 & Hrun1 & Hr1 & Hout1).
    rewrite Hrun1. destruct (IH (page_no + 1) r1 Hr1) as [Hs Hge].
    destruct (pages_loop ([], r1, page_no + 1) doc) as [st out2]. cbn [snd] in *.
    assert (Hhere : Forall (fun y => ypage_no y = page_no) out1).
    { eapply Forall_impl; [exact Hout1|]. cbn beta. intros y (Hn & _). exact Hn. }
    assert (Hlater : Forall (fun y => page_no <= ypage_no y) out2).
    { eapply Forall_impl; [exact Hge|]. cbn beta. intros y Hy. lia. }
    split.
    + apply (sorted_after_page page_no); assumption.
    + apply Forall_app. split; [|exact Hlater].
      eapply Forall_impl; [exact Hhere|]. cbn beta. intros y ->. lia.
Qed.

(** X11. The page numbers of the yielded tuples never decrease. *)
Theorem yield_page_numbers_sorted (doc : list Page) :
  StronglySorted Z.le
    (map ypage_no (hocr_paragraphs Page word_data_fast dimensions doc)).
Proof.
  unfold hocr_paragraphs, hocr_paragraphs_run.
  apply (pages_loop_sorted doc 0 [] (List.Forall_nil _)).
Qed.

Lemma pages_loop_all_content doc : forall page_no,
  Forall (fun pg => Forall (fun p => has_content p = true) (word_data_fast pg)) doc ->
  exists out,
    pages_loop ([], [], page_no) doc = (([], [], page_no + len doc), out)
    /\ map yparagraph out = concat (map word_data_fast doc)
    /\ map ytext out
       = map (fun p => (hocr_paragraph_text p).1) (concat (map word_data_fast doc)).
Proof.
  induction doc as [|page doc IH]; intros page_no Hdoc; cbn [gen_for].
  - exists []. unfold len. cbn [length]. rewrite Z.add_0_r. repeat split.
  - apply Forall_cons in Hdoc as [Hpage Hdoc].
    rewrite pages_body_eq, (paragraphs_loop_all_content _ _ _ _ Hpage).
    destruct (IH (page_no + 1) Hdoc) as (out & -> & Hp & Ht).
    eexists. split; [rewrite len_cons, Z.add_assoc; reflexivity|].
    cbn [map concat]. rewrite !map_app, Hp, Ht, !map_map. cbn [yparagraph ytext fst snd].
    rewrite map_id. split; reflexivity.
Qed.

(** X12. When every paragraph of the document has content, nothing is
    merged: the yielded paragraphs are the paragraphs of the document, page
    after page, each with its own text. *)
Theorem yields_without_merging (doc : list Page) :
  Forall (fun pg => Forall (fun p => has_content p = true) (word_data_fast pg)) doc ->
  map yparagraph (hocr_paragraphs Page word_data_fast dimensions doc)
  = concat (map word_data_fast doc)
  /\ map ytext (hocr_paragraphs Page word_data_fast dimensions doc)
     = map (fun p => (hocr_paragraph_text p).1) (concat (map word_data_fast doc)).
Proof.
  intros Hdoc. unfold hocr_paragraphs, hocr_paragraphs_run.
  destruct (pages_loop_all_content doc 0 Hdoc) as (out & -> & Hp & Ht).
  split; assumption.
Qed.

End Yields.

(** ** hocr_get_xml_page_offsets: the ranges *)

Lemma boundary_count calls :
  length (omap boundary calls)
  = (length (List.filter (fun c : xmlparser * handler_call => is_page_start c.2) calls)
     + length (List.filter (fun c : xmlparser * handler_call => is_body_end c.2) calls))%nat.
Proof.
  induction calls as [|[parser c] calls IH]; [reflexivity|].
  rewrite omap_cons_eq. cbn [List.filter]. unfold boundary at 1. cbn [fst snd].
  destruct c as [name attrs|name]; cbn [is_page_start is_body_end].
  - rewrite orb_false_r. destruct (bool_decide _); cbn [length]; lia.
  - cbn [orb]. destruct (bool_decide _); cbn [length]; lia.
Qed.

Lemma boundary_index c b : boundary c = Some b -> b = CurrentByteIndex c.1.
Proof. unfold boundary. destruct (_ || _); [intros [= <-]; reflexivity|discriminate]. Qed.

Lemma boundaries_sorted calls :
  StronglySorted Z.le (map (fun c : xmlparser * handler_call => CurrentByteIndex c.1) calls) ->
  StronglySorted Z.le (omap boundary calls).
Proof.
  induction calls as [|c calls IH]; cbn [map]; [constructor|].
  intros Hs. apply StronglySorted_inv in Hs as [Hs Hc].
  rewrite omap_cons_eq. destruct (boundary c) as [b|] eqn:Hb; [|exact (IH Hs)].
  apply boundary_index in Hb as ->. constructor; [exact (IH Hs)|].
  apply List.Forall_forall. intros b Hin.
  apply list_elem_of_In, list_elem_of_omap in Hin as (c' & Hin & Hb).
  apply boundary_index in Hb as ->. rewrite List.Forall_forall in Hc.
  apply Hc.
  apply (in_map (fun c : xmlparser * handler_call => CurrentByteIndex c.1)).
  apply list_elem_of_In, Hin.
Qed.

Lemma consecutive_sorted (l : list Z) :
  StronglySorted Z.le l -> Forall (fun p : Z * Z => p.1 <= p.2) (consecutive l).
Proof.
  induction l as [|x [|y l] IH]; [constructor|constructor|].
  intros Hs. apply StronglySorted_inv in Hs as [Hs Hx].
  rewrite consecutive_cons. constructor; [|exact (IH Hs)].
  apply Forall_cons in Hx as [Hxy _]. exact Hxy.
Qed.

(** X13. The ranges returned for the XML file are contiguous too: each
    range ends at the byte where the next one starts, so the bytes between
    the end tag of a page and the start tag of the next belong to the range
    of the first. *)
Theorem xml_offsets_contiguous (xml_file : expat_run) (offsets : list (Z * Z)) :
  hocr_get_xml_page_offsets xml_file = Ok offsets ->
  forall (i : nat) (p q : Z * Z),
    offsets !! i = Some p -> offsets !! S i = Some q -> p.2 = q.1.
Proof.
  rewrite xml_page_offsets_eq. destruct (not_well_formed xml_file); [discriminate|].
  intros [= <-] i [a b] [c d] Hp Hq.
  apply consecutive_lookup in Hp as [_ Hp].
  apply consecutive_lookup in Hq as [Hq _].
  cbn [fst snd]. congruence.
Qed.

(** X14. The number of ranges is one less than the number of boundaries
    seen: the starts of [ocr_page] elements and the ends of [body] elements
    together (and zero when there is none). *)
Theorem xml_offsets_length (xml_file : expat_run) (offsets : list (Z * Z)) :
  hocr_get_xml_page_offsets xml_file = Ok offsets ->
  length offsets
  = (length (List.filter (fun c => is_page_start c.2) (handler_calls xml_file))
     + length (List.filter (fun c => is_body_end c.2) (handler_calls xml_file))
     - 1)%nat.
Proof.
  rewrite xml_page_offsets_eq. destruct (not_well_formed xml_file); [discriminate|].
  intros [= <-]. rewrite consecutive_length, boundary_count. reflexivity.
Qed.


(** X16. When the parser's byte index does not decrease from one handler
    call to the next, no range ends before it starts. *)
Theorem xml_offsets_ordered (xml_file : expat_run) (offsets : list (Z * Z)) :
  StronglySorted Z.le
    (map (fun c => CurrentByteIndex c.1) (handler_calls xml_file)) ->
  hocr_get_xml_page_offsets xml_file = Ok offsets ->
  Forall (fun p => p.1 <= p.2) offsets.
Proof.
  intros Hs. rewrite xml_page_offsets_eq.
  destruct (not_well_formed xml_file); [discriminate|].
  intros [= <-]. apply consecutive_sorted, boundaries_sorted, Hs.
Qed.

(** ** hocr_get_plaintext_page_offsets: the ranges *)

Lemma len_app {A} (l1 l2 : list A) : len (l1 ++ l2) = len l1 + len l2.
Proof. unfold len. rewrite length_app. lia. Qed.

Lemma len_nonneg {A} (l : list A) : 0 <= len l.
Proof. unfold len. lia. Qed.

Lemma len_zero {A} (l : list A) : len l = 0 <-> l = [].
Proof. unfold len. destruct l; cbn [length]; split; (discriminate || lia || reflexivity). Qed.

Lemma running_lookup texts : forall cursor i t,
  texts !! i = Some t ->
  (cursor :: running cursor texts) !! i
  = Some (cursor + len (concat (take i texts)))
  /\ running cursor texts !! i
     = Some (cursor + len (concat (take i texts)) + len t).
Proof.
  induction texts as [|t0 texts IH]; intros cursor i t Hi; [discriminate|].
  destruct i as [|i].
  - injection Hi as ->. cbn [running take concat lookup list_lookup].
    unfold len at 1 3. cbn [length]. rewrite !Z.add_0_r. split; reflexivity.
  - cbn [lookup list_lookup] in Hi. destruct (IH (cursor + len t0) i t Hi) as [H1 H2].
    cbn [running take concat]. rewrite len_app, !Z.add_assoc.
    split; [exact H1|exact H2].
Qed.

Lemma consecutive_running_from texts : forall cursor,
  0 <= cursor ->
  Forall2 (fun (t : pystr) (p : Z * Z) => 0 <= p.1 /\ p.2 = p.1 + len t)
          texts (consecutive (cursor :: running cursor texts)).
Proof.
  induction texts as [|t texts IH]; intros cursor Hc; cbn [running].
  - constructor.
  - rewrite consecutive_cons. constructor; [cbn [fst snd]; auto|].
    apply IH. pose proof (len_nonneg t). lia.
Qed.

Lemma encode_ascii s :
  Forall (fun c => 0 <= c < 0x80) s -> str_encode_utf8 s = Ok s.
Proof.
  induction 1 as [|c s Hc _ IH]; cbn [str_encode_utf8]; [reflexivity|].
  unfold utf8_encode_char.
  rewrite (proj2 (Z.ltb_ge c 0)), (proj2 (Z.ltb_lt c 0x80)), IH by lia.
  reflexivity.
Qed.

Lemma spaced_Forall (P : Z -> Prop) ws :
  P 0x20 -> Forall (fun w => Forall P (text w)) ws -> Forall P (spaced ws).
Proof.
  intros Hsp. induction 1 as [|w ws Hw _ IH]; unfold spaced; cbn [map concat];
    [constructor|].
  apply Forall_app. split; [|exact IH].
  apply Forall_app. split; [exact Hw|]. constructor; [exact Hsp|constructor].
Qed.

Lemma page_out_Forall (P : Z -> Prop) ps :
  P 0x20 -> P 0x0A ->
  Forall (fun w => Forall P (text w)) (page_kept ps) ->
  Forall P (page_out ps).
Proof.
  intros Hsp Hnl. unfold page_kept, page_out.
  induction ps as [|p ps IH]; cbn [map concat]; [constructor|].
  rewrite kept_app. intros H. apply Forall_app in H as [Hp Hps].
  apply Forall_app. split; [|exact (IH Hps)].
  unfold paragraph_out. apply Forall_app. split.
  - revert Hp. unfold all_words.
    induction (lines p) as [|l ls IHl]; cbn [map concat]; [constructor|].
    rewrite kept_app. intros H. apply Forall_app in H as [Hl Hls].
    apply Forall_app. split; [|exact (IHl Hls)].
    unfold line_out. destruct (truthy _); [|constructor].
    apply Forall_app. split; [constructor; [exact Hsp|constructor]|].
    apply strip_Forall, spaced_Forall; assumption.
  - destruct (truthy _); [constructor; [exact Hnl|constructor]|constructor].
Qed.

Section Ranges.

Context {Page : Type}.
Variable word_data : Page -> list Paragraph.

(** X17. The ranges cut the text of the document into the texts of its
    pages.  With [texts] the texts that [hocr_page_text] returns for the
    pages and [fulltext] their concatenation, range [i] is [(a, b)] with
    [fulltext[a:b]] the text of page [i], both counted in code points; the
    last range ends at [len(fulltext)]. *)
Theorem plaintext_ranges_slice_text (doc : list Page) (offsets : list (Z * Z)) :
  hocr_get_plaintext_page_offsets Page word_data doc = Ok offsets ->
  exists texts : list pystr,
    Forall2 (fun page t => hocr_page_text Page word_data page = Ok t) doc texts
    /\ (forall (i : nat) (a b : Z),
          offsets !! i = Some (a, b) ->
          texts !! i
          = Some (take (Z.to_nat (b - a)) (drop (Z.to_nat a) (concat texts))))
    /\ (forall p, last offsets = Some p -> p.2 = len (concat texts)).
Proof.
  intros H. destruct (plaintext_offsets_eq _ _ _ H) as (texts & Htexts & ->).
  exists texts. split; [exact Htexts|]. split.
  - intros i a b Hab. apply consecutive_lookup in Hab as [Ha Hb].
    rewrite lookup_cons in Hb.
    assert (Hlt : (i < length texts)%nat).
    { apply lookup_lt_Some in Hb. rewrite running_length in Hb. exact Hb. }
    destruct (lookup_lt_is_Some_2 texts i Hlt) as [t Ht].
    destruct (running_lookup texts 0 i t Ht) as [Ha' Hb'].
    rewrite Ha' in Ha. rewrite Hb' in Hb. injection Ha as <-. injection Hb as <-.
    rewrite Ht. f_equal.
    assert (Hfull : concat texts
                    = concat (take i texts) ++ t ++ concat (drop (S i) texts)).
    { rewrite <- (take_drop_middle texts i t Ht) at 1.
      rewrite concat_app. reflexivity. }
    rewrite Hfull.
    replace (Z.to_nat (0 + len (concat (take i texts))))
      with (length (concat (take i texts))) by (unfold len; lia).
    replace (Z.to_nat (0 + len (concat (take i texts)) + len t
                       - (0 + len (concat (take i texts)))))
      with (length t) by (unfold len; lia).
    rewrite drop_app_length, take_app_length. reflexivity.
  - intros [a b] Hlast. rewrite last_lookup in Hlast.
    apply consecutive_lookup in Hlast as [_ Hb]. rewrite lookup_cons in Hb.
    rewrite consecutive_length in Hb. cbn [length] in Hb.
    replace (pred (S (length (running 0 texts)) - 1)) with (pred (length texts))
      in Hb by (rewrite running_length; lia).
    assert (Hlt : (pred (length texts) < length texts)%nat).
    { apply lookup_lt_Some in Hb. rewrite running_length in Hb. exact Hb. }
    destruct (lookup_lt_is_Some_2 texts _ Hlt) as [t Ht].
    destruct (running_lookup texts 0 _ t Ht) as [_ Hb'].
    rewrite Hb' in Hb. injection Hb as <-. cbn [snd].
    assert (Hfull : concat texts = concat (take (pred (length texts)) texts) ++ t).
    { rewrite <- (take_drop_middle texts _ t Ht) at 1.
      rewrite (drop_ge texts) by lia.
      rewrite concat_app. cbn [concat]. rewrite !app_nil_r. reflexivity. }
    rewrite Hfull, len_app. lia.
Qed.

(** X18. No range starts before 0 or ends before it starts, and the range
    of a page is empty exactly when no word of the page passes the filter. *)
Theorem plaintext_ranges_ordered (doc : list Page) (offsets : list (Z * Z)) :
  hocr_get_plaintext_page_offsets Page word_data doc = Ok offsets ->
  Forall2 (fun page (p : Z * Z) =>
             0 <= p.1 <= p.2
             /\ (p.1 = p.2 <-> page_kept (word_data page) = []))
          doc offsets.
Proof.
  intros H. destruct (plaintext_offsets_eq _ _ _ H) as (texts & Htexts & ->).
  pose proof (consecutive_running_from texts 0 (Z.le_refl 0)) as Hw. revert Hw.
  generalize (consecutive (0 :: running 0 texts)). clear H.
  induction Htexts as [|page t doc texts Ht _ IH]; intros l Hl;
    inversion Hl as [|? p ? l' [Hp1 Hp2] Hl']; subst; constructor; [|apply IH, Hl'].
  pose proof (len_nonneg t). split; [lia|].
  rewrite hocr_page_text_of in Ht. rewrite <- page_text_of_empty. split.
  - intros Heq. assert (Hz : len t = 0) by lia. apply len_zero in Hz. congruence.
  - intros Hempty. rewrite Ht in Hempty. injection Hempty as ->.
    rewrite Hp2. unfold len. cbn [length]. lia.
Qed.

(** X19. For a document whose words that pass the filter are ASCII, the call
    returns and its ranges are byte ranges: the text of every page is its
    own UTF-8 encoding, so the width of each range is the number of bytes of
    the encoded page text. *)
Theorem plaintext_ranges_of_ascii (doc : list Page) :
  Forall (fun page =>
            Forall (fun w => Forall (fun c => 0 <= c < 0x80) (text w))
                   (page_kept (word_data page))) doc ->
  exists offsets : list (Z * Z),
    hocr_get_plaintext_page_offsets Page word_data doc = Ok offsets
    /\ Forall2 (fun page (p : Z * Z) =>
                  exists t, hocr_page_text Page word_data page = Ok t
                            /\ str_encode_utf8 t = Ok t
                            /\ p.2 - p.1 = len t)
               doc offsets.
Proof.
  intros Hascii.
  assert (Hscalar : forall c, 0 <= c < 0x80 -> scalar_value c).
  { intros c Hc. unfold scalar_value, is_surrogate. split; [lia|].
    rewrite (proj2 (Z.leb_gt _ _)) by lia. reflexivity. }
  assert (Hdoc : Forall (fun page => encodable (word_data page)) doc).
  { eapply Forall_impl; [exact Hascii|]. cbn beta. intros page Hp.
    unfold encodable. eapply Forall_impl; [exact Hp|]. cbn beta. intros w Hw.
    eapply Forall_impl; [exact Hw|]. exact Hscalar. }
  destruct (plaintext_offsets_return word_data doc Hdoc) as [offsets Hoff].
  exists offsets. split; [exact Hoff|].
  pose proof (plaintext_offsets_advance word_data doc offsets Hoff) as Hadv.
  clear Hoff Hdoc. induction Hadv as [|page p doc offsets (t & Ht & Hw) _ IH];
    [constructor|].
  apply Forall_cons in Hascii as [Hpage Hascii].
  constructor; [|exact (IH Hascii)].
  exists t. split; [exact Ht|]. split; [|exact Hw].
  apply encode_ascii. rewrite hocr_page_text_of in Ht.
  rewrite (page_text_of_value _ _ Ht).
  apply page_out_Forall; [lia|lia|exact Hpage].
Qed.

End Ranges.

(** * The properties on the fixtures *)

Import Fixture.

(** C1. A page whose only word is U+00E9: its text is three code points long
    and four bytes long in UTF-8; the range returned for the page is
    [(0, 3)], the number of code points. *)
Theorem plaintext_offsets_count_code_points :
  page_text accent_page = Ok [0x20; 0xE9; 0x0A]
  /\ len [0x20; 0xE9; 0x0A] = 3
  /\ str_encode_utf8 [0x20; 0xE9; 0x0A] = Ok [0x20; 0xC3; 0xA9; 0x0A]
  /\ len [0x20; 0xC3; 0xA9; 0x0A] = 4
  /\ plaintext_page_offsets [accent_page] = Ok [(0, 3)].
Proof. repeat split; vm_compute; reflexivity. Qed.

(** C2, as the claim states it, fails on the fixture: two tuples are yielded,
    not one; the second has the lines of [P2] and [P3] only and its text
    ends with the space written after each word. *)
Lemma three_paragraph_run_not_one_tuple :
  paragraphs [three_page]
  = [(P1, lit "Hello ", 0, 2480, 3508);
     ({| lines := lines P2 ++ lines P3 |}, lit "World ", 0, 2480, 3508)]
  /\ ~ (exists y : Yielded,
          paragraphs [three_page] = [y]
          /\ lines (yparagraph y) = lines P1 ++ lines P2 ++ lines P3
          /\ ytext y = lit "World").
Proof.
  split; [vm_compute; reflexivity|].
  intros (y & Hy & _). vm_compute in Hy. discriminate Hy.
Qed.

Lemma three_paragraph_run_witness :
  (forall (page_no w h : Z) (txt : list Z) (ps : list Paragraph),
      gen_for (paragraphs_body page_no w h) (txt, ps) [P1; P2; P3]
      = (([], []),
         [(merged ps P1, lit "Hello ", page_no, w, h);
          ({| lines := lines P2 ++ lines P3 |}, lit "World ", page_no, w, h)]))
  /\ paragraphs [three_page]
     = [(P1, lit "Hello ", 0, 2480, 3508);
        ({| lines := lines P2 ++ lines P3 |}, lit "World ", 0, 2480, 3508)].
Proof.
  apply (three_paragraph_run word_data dimensions three_page P1 P2 P3
           (lit "Hello ") (lit "World ")); reflexivity.
Defined.

Lemma xml_page_ranges_witness :
  let h := foldl dispatch PageFinder_init (handler_calls two_pages_run) in
  let starts := omap page_start two_pages_pre in
  page_bytes h = omap boundary (handler_calls two_pages_run)
  /\ page_bytes h = starts ++ [267]
  /\ exists offsets : list (Z * Z),
      hocr_get_xml_page_offsets two_pages_run = Ok offsets
      /\ offsets = zip (slice_to_last (page_bytes h)) (slice_from_1 (page_bytes h))
      /\ length offsets = length starts
      /\ forall (i : nat) (s : Z),
          starts !! i = Some s ->
          offsets !! i = Some (s, default 267 (starts !! S i)).
Proof.
  apply (xml_page_ranges two_pages_run two_pages_pre two_pages_post
           two_pages_body_end).
  - reflexivity.
  - reflexivity.
  - repeat constructor.
  - repeat constructor.
Defined.

Lemma plaintext_offsets_contiguous_witness :
  (forall p, [(0, 3); (3, 3); (3, 7)] !! 0%nat = Some p -> p.1 = 0)
  /\ (forall (i : nat) (p q : Z * Z),
        [(0, 3); (3, 3); (3, 7)] !! i = Some p ->
        [(0, 3); (3, 3); (3, 7)] !! S i = Some q -> p.2 = q.1)
  /\ length [(0, 3); (3, 3); (3, 7)] = length [accent_page; blank_page; ab_page].
Proof.
  apply (plaintext_offsets_contiguous word_data [accent_page; blank_page; ab_page]).
  vm_compute. reflexivity.
Defined.

Lemma too_few_boundaries_witness :
  hocr_get_xml_page_offsets no_pages_run = Ok []
  /\ plaintext_page_offsets [] = Ok [].
Proof.
  apply (too_few_boundaries word_data no_pages_run).
  - reflexivity.
  - right. split; [repeat constructor|vm_compute; lia].
Defined.

Lemma pending_crosses_pages_witness :
  exists (pending : list Paragraph) (later : list Yielded),
    (hocr_paragraphs_run page word_data dimensions [first_page]).1.1.2
    = pending ++ [smudge]
    /\ paragraphs [first_page; blot_page; last_page]
       = paragraphs [first_page]
         ++ ({| lines :=
                  concat (map lines (pending ++ [smudge]
                                     ++ concat (map word_data [blot_page])
                                     ++ [para [word "dust" 3]]))
                  ++ lines chapter |},
             lit "Chapter ", 2, 1240, 1754) :: later.
Proof.
  apply (pending_crosses_pages word_data dimensions
           [] first_page [blot_page] last_page []
           [para [word "Intro" 90]] smudge
           [para [word "dust" 3]] chapter [para [word "more" 80]]).
  - reflexivity.
  - reflexivity.
  - repeat constructor.
  - reflexivity.
  - repeat constructor.
  - reflexivity.
Defined.

(** ** Further properties on the fixtures *)

Lemma page_text_ends_with_newline_witness :
  exists body, [0x20; 0xE9; 0x0A] = body ++ newline.
Proof.
  apply (page_text_ends_with_newline word_data accent_page).
  - reflexivity.
  - discriminate.
Defined.

Lemma page_text_of_joined_word_data_witness :
  page_text three_page
  = match page_text hello_page, page_text world_page with
    | Ok t1, Ok t2 => Ok (t1 ++ t2)
    | Raise e, _ => Raise e
    | Ok _, Raise e => Raise e
    end.
Proof.
  apply (page_text_of_joined_word_data word_data three_page hello_page world_page).
  reflexivity.
Defined.

Lemma words_align_with_text_witness :
  let ptext := (hocr_paragraph_text hello_world).1 in
  let start := length (spaced [word "Hello" 95]) in
  take (length (text (word "World" 75))) (drop start ptext) = text (word "World" 75)
  /\ drop (start + length (text (word "World" 75))) ptext = lit " " ++ spaced [].
Proof.
  apply (words_align_with_text hello_world [word "Hello" 95] [] (word "World" 75)).
  reflexivity.
Defined.

Lemma trailing_pages_without_content_witness :
  paragraphs ([three_page] ++ [blot_page; blank_page]) = paragraphs [three_page].
Proof.
  apply (trailing_pages_without_content word_data dimensions
           [three_page] [blot_page; blank_page]).
  repeat constructor.
Defined.

Lemma yields_without_merging_witness :
  map yparagraph (paragraphs [hello_page; hello_page])
  = concat (map word_data [hello_page; hello_page])
  /\ map ytext (paragraphs [hello_page; hello_page])
     = map (fun p => (hocr_paragraph_text p).1)
           (concat (map word_data [hello_page; hello_page])).
Proof.
  apply (yields_without_merging word_data dimensions [hello_page; hello_page]).
  repeat constructor.
Defined.

Lemma xml_offsets_contiguous_witness :
  hocr_get_xml_page_offsets two_pages_run = Ok [(53, 153); (153, 267)]
  /\ forall (i : nat) (p q : Z * Z),
       [(53, 153); (153, 267)] !! i = Some p ->
       [(53, 153); (153, 267)] !! S i = Some q -> p.2 = q.1.
Proof.
  split; [vm_compute; reflexivity|].
  apply (xml_offsets_contiguous two_pages_run). vm_compute. reflexivity.
Defined.

Lemma xml_offsets_length_witness :
  length [(53, 153); (153, 267)]
  = (length (List.filter (fun c => is_page_start c.2) (handler_calls two_pages_run))
     + length (List.filter (fun c => is_body_end c.2) (handler_calls two_pages_run))
     - 1)%nat.
Proof.
  apply (xml_offsets_length two_pages_run). vm_compute. reflexivity.
Defined.


Lemma xml_offsets_ordered_witness :
  Forall (fun p : Z * Z => p.1 <= p.2) [(53, 153); (153, 267)].
Proof.
  apply (xml_offsets_ordered two_pages_run).
  - unfold two_pages_run, two_pages_pre, two_pages_post, two_pages_body_end, at_byte.
    cbn [handler_calls app map fst CurrentByteIndex].
    repeat first [lia | constructor].
  - vm_compute. reflexivity.
Defined.

Lemma plaintext_ranges_slice_text_witness :
  exists texts : list (list Z),
    Forall2 (fun pg t => page_text pg = Ok t)
            [accent_page; blank_page; ab_page] texts
    /\ (forall (i : nat) (a b : Z),
          [(0, 3); (3, 3); (3, 7)] !! i = Some (a, b) ->
          texts !! i
          = Some (take (Z.to_nat (b - a)) (drop (Z.to_nat a) (concat texts))))
    /\ (forall p, last [(0, 3); (3, 3); (3, 7)] = Some p -> p.2 = len (concat texts)).
Proof.
  apply (plaintext_ranges_slice_text word_data [accent_page; blank_page; ab_page]).
  vm_compute. reflexivity.
Defined.

Lemma plaintext_ranges_ordered_witness :
  Forall2 (fun pg (p : Z * Z) =>
             0 <= p.1 <= p.2 /\ (p.1 = p.2 <-> page_kept (word_data pg) = []))
          [accent_page; blank_page; ab_page] [(0, 3); (3, 3); (3, 7)].
Proof.
  apply (plaintext_ranges_ordered word_data [accent_page; blank_page; ab_page]).
  vm_compute. reflexivity.
Defined.

Lemma plaintext_ranges_of_ascii_witness :
  exists offsets : list (Z * Z),
    plaintext_page_offsets [three_page; ab_page] = Ok offsets
    /\ Forall2 (fun pg (p : Z * Z) =>
                  exists t, page_text pg = Ok t
                            /\ str_encode_utf8 t = Ok t
                            /\ p.2 - p.1 = len t)
               [three_page; ab_page] offsets.
Proof.
  apply (plaintext_ranges_of_ascii word_data [three_page; ab_page]).
  repeat first [lia | constructor].
Defined.
